(** * SparseCsrTensorImpl: structural mutation of sparse compressed tensors

    A shallow embedding of [aten/src/ATen/SparseCsrTensorImpl.cpp]: the two
    constructors, [resize_], [resize_and_clear_],
    [resize_as_sparse_csr_tensor_], [set_member_tensors] and the rejected
    dense-only queries, over a store of reference-counted dense tensors.

    Conventions.
    - [int64_t] values are [Z]; arithmetic of the source that can leave the
      64-bit range is written with its two's-complement wrap-around
      ([Int64.add], ...). Sums and differences of axis counts behind a check
      that bounds them ([sparse_dim - 2] after [sparse_dim >= 2],
      [dim() - 1]) cannot wrap and are exact.
    - An [at::Tensor] is a handle into a store of dense tensors, so that two
      handles naming one tensor see each other's in-place resizes.
    - A failed [TORCH_CHECK] raises; the store and the instance are kept as
      they were at the raise, which is what the caller of the C++ method
      observes after catching the exception. *)

From Stdlib Require Import ZArith Lia.
From stdpp Require Import base option list gmap.

Local Open Scope Z_scope.

(** ** 64-bit signed integers *)

Module Int64.

Definition modulus : Z := 2 ^ 64.
Definition half_modulus : Z := 2 ^ 63.
Definition min_signed : Z := - half_modulus.
Definition max_signed : Z := half_modulus - 1.

Definition in_range (z : Z) : Prop := min_signed <= z <= max_signed.

Definition wrap (z : Z) : Z := (z + half_modulus) mod modulus - half_modulus.

Definition add (a b : Z) : Z := wrap (a + b).
Definition sub (a b : Z) : Z := wrap (a - b).
Definition mul (a b : Z) : Z := wrap (a * b).
(** C++ [/] truncates towards zero; the caller rules out a zero divisor. *)
Definition div (a b : Z) : Z := wrap (Z.quot a b).

End Int64.

(** ** Tags carried by tensors *)

Inductive ScalarType :=
| Byte | Char | Short | Int | Long | Half | Float | Double | Bool | BFloat16.

Inductive DeviceType := kCPU | kCUDA.

Record Device := { dev_type : DeviceType; dev_index : Z }.

Inductive Layout :=
| kStrided | kSparse | kSparseCsr | kMkldnn | kSparseCsc | kSparseBsr | kSparseBsc.

Inductive MemoryFormat := Contiguous | Preserve | ChannelsLast | ChannelsLast3d.

Inductive DispatchKey :=
| CPU | CUDA | SparseCPU | SparseCUDA | SparseCsrCPU | SparseCsrCUDA.

#[global] Instance ScalarType_eq_dec : EqDecision ScalarType.
Proof. solve_decision. Defined.
#[global] Instance DeviceType_eq_dec : EqDecision DeviceType.
Proof. solve_decision. Defined.
#[global] Instance Device_eq_dec : EqDecision Device.
Proof. solve_decision. Defined.
#[global] Instance Layout_eq_dec : EqDecision Layout.
Proof. solve_decision. Defined.
#[global] Instance DispatchKey_eq_dec : EqDecision DispatchKey.
Proof. solve_decision. Defined.

(** [DispatchKeySet]: only membership is used by this file. *)
Definition DispatchKeySet := list DispatchKey.
Definition has (key_set : DispatchKeySet) (k : DispatchKey) : bool :=
  bool_decide (k ∈ key_set).

(** ** Errors

    Every failure of the source is a [c10::Error] told apart by its message;
    the constructors name the check sites after the error taxonomy of the
    specification. *)

Inductive Error :=
| InvalidDeviceTag            (* "Cannot construct SparseCsrTensor with non-sparse tensor type ID" *)
| DeviceMismatch              (* "Values and crow_indices/col_indices need to be on the same device." *)
| TypeMismatch                (* "dtype of values (..) must match dtype of sparse tensor (..)" *)
| InvalidArgument             (* the two argument checks of resize_and_clear_ *)
| UnsupportedOnSymbolicShape  (* ".. called on tensor with symbolic shape" *)
| UnsupportedOperation        (* ".. tensors do not have strides / set_size / .." *)
| UnsupportedLayout           (* default branch of a layout dispatch *)
| DenseTensorError            (* a check inside a dense tensor operation *)
| OutOfBounds                 (* an ArrayRef read or slice outside the array *)
| DivisionByZero              (* integer division by a zero block edge *)
| UndefinedTensor.            (* a handle that names no tensor *)

#[global] Instance Error_eq_dec : EqDecision Error.
Proof. solve_decision. Defined.

(** [a / b] on [int64_t]. Division by zero has no defined result in the
    source language; it is reported as [DivisionByZero]. *)
Definition int64_divide (a b : Z) : Error + Z :=
  if b =? 0 then inl DivisionByZero else inr (Int64.div a b).

(** ** Dense tensors

    The dense tensor operations ([at::empty], [Tensor::resize_], [narrow],
    [fill_], [zero_], [at::empty_like]) live in files of the library that are
    not part of this unit; they are modelled on contiguous tensors with a
    zero storage offset. A cell holds the integer that was written to it; the
    conversion of a written scalar to the element type of the buffer is not
    modelled. *)

Module ATen.

(** A storage cell: [None] is memory that was allocated and never written. *)
Abbreviation cell := (option Z) (only parsing).

Record Tensor := {
  sizes : list Z;
  scalar_type : ScalarType;
  device : Device;
  storage : list cell
}.

Definition dim (t : Tensor) : Z := Z.of_nat (length (sizes t)).

(** [c10::multiply_integers] over a shape. *)
Definition numel_of (sz : list Z) : Z := foldr Z.mul 1 sz.
Definition numel (t : Tensor) : Z := numel_of (sizes t).

Definition size_nonnegative (sz : list Z) : bool := forallb (Z.leb 0) sz.

(** Modelled from the spec: [at::empty] (typed empty allocation with
    device/dtype): a buffer of the requested shape whose cells were never
    written. *)
Definition empty (sz : list Z) (dt : ScalarType) (dev : Device) : Error + Tensor :=
  if size_nonnegative sz then
    inr {| sizes := sz; scalar_type := dt; device := dev;
           storage := replicate (Z.to_nat (numel_of sz)) None |}
  else inl DenseTensorError.

(** Modelled from the spec: [at::empty_like] (a "like" allocation, not a copy
    of values): same shape, element type and device, cells never written. *)
Definition empty_like (t : Tensor) : Tensor :=
  {| sizes := sizes t; scalar_type := scalar_type t; device := device t;
     storage := replicate (Z.to_nat (numel t)) None |}.

(** Modelled from the spec: [Tensor::resize_] (buffer resize-in-place): the
    shape is replaced and the cells are reinterpreted in row-major order; the
    storage is kept, and grown by never-written cells when the new shape
    needs more of them (content beyond the previous length is
    uninitialized). *)
Definition resize_ (t : Tensor) (sz : list Z) : Error + Tensor :=
  if size_nonnegative sz then
    inr {| sizes := sz; scalar_type := scalar_type t; device := device t;
           storage := storage t ++
             replicate (Z.to_nat (numel_of sz) - length (storage t))%nat None |}
  else inl DenseTensorError.

(** [t.size(-1)]: the length of the last axis; raises on a 0-dim tensor. *)
Definition size_last (t : Tensor) : Error + Z :=
  match last (sizes t) with
  | Some n => inr n
  | None => inl DenseTensorError
  end.

(** A view [t.narrow(-1, start, length)]: the positions
    [start .. start+length-1] of the last axis, in every batch. *)
Record LastAxisRange := { range_start : Z; range_length : Z }.

(** The checks of [narrow] on the last axis: the tensor has an axis, the
    length is non-negative, the start lies in [-size, size] (a negative start
    counts from the end) and the range fits into the axis. *)
Definition narrow_last (t : Tensor) (start length : Z) : Error + LastAxisRange :=
  match last (sizes t) with
  | None => inl DenseTensorError
  | Some cur_size =>
      if negb (0 <=? length) then inl DenseTensorError
      else if negb ((- cur_size <=? start) && (start <=? cur_size))
      then inl DenseTensorError
      else
        let start' := if start <? 0 then start + cur_size else start in
        if negb (start' <=? cur_size - length) then inl DenseTensorError
        else inr {| range_start := start'; range_length := length |}
  end.

(** Whether the flat position [k] of [t] lies in the range [r] of its last
    axis. *)
Definition in_range_last (t : Tensor) (r : LastAxisRange) (k : nat) : bool :=
  match last (sizes t) with
  | None => false
  | Some cur_size =>
      let j := Z.of_nat k mod cur_size in
      (Z.of_nat k <? numel t) && (range_start r <=? j)
        && (j <? range_start r + range_length r)
  end.

(** Modelled from the spec: [fill_] on a narrowed view (buffer fill): writes
    [v] to the viewed positions of the underlying storage and to no other. *)
Definition fill_range (t : Tensor) (r : LastAxisRange) (v : Z) : Tensor :=
  {| sizes := sizes t; scalar_type := scalar_type t; device := device t;
     storage := imap (fun k c => if in_range_last t r k then Some v else c)
                     (storage t) |}.

(** Modelled from the spec: [zero_] (buffer zero): writes 0 to every element
    of the tensor. *)
Definition zero_ (t : Tensor) : Tensor :=
  {| sizes := sizes t; scalar_type := scalar_type t; device := device t;
     storage := imap (fun k c => if Z.of_nat k <? numel t then Some 0 else c)
                     (storage t) |}.

(** The element at position [j] of the last axis in batch number [b]
    (batches counted in row-major order). *)
Definition entry (t : Tensor) (b j : nat) : option cell :=
  match last (sizes t) with
  | None => None
  | Some cur_size => storage t !! (b * Z.to_nat cur_size + j)%nat
  end.

(** The number of batches: the product of all axes but the last. *)
Definition batch_count (t : Tensor) : Z := numel_of (removelast (sizes t)).

(** The elements of the tensor in row-major order. *)
Definition contents (t : Tensor) : list cell :=
  take (Z.to_nat (numel t)) (storage t).

End ATen.

(** ** Computations that may raise

    [M S A]: a computation over a state [S] that returns an [A] or raises an
    [Error]; the state reached at the raise is kept. *)

Definition M (S A : Type) : Type := S → (Error + A) * S.

Definition ret {S A} (a : A) : M S A := λ s, (inr a, s).

Definition bind {S A B} (m : M S A) (f : A → M S B) : M S B :=
  λ s, match m s with
       | (inl e, s') => (inl e, s')
       | (inr a, s') => f a s'
       end.

Definition throw {S A} (e : Error) : M S A := λ s, (inl e, s).

Definition gets {S A} (f : S → A) : M S A := λ s, (inr (f s), s).

Definition modify {S} (f : S → S) : M S unit := λ s, (inr tt, f s).

Definition lift_result {S A} (r : Error + A) : M S A :=
  match r with
  | inl e => throw e
  | inr a => ret a
  end.

Definition TORCH_CHECK {S} (cond : bool) (e : Error) : M S unit :=
  if cond then ret tt else throw e.

Declare Scope comp_scope.
Delimit Scope comp_scope with comp.
Notation "x <- m ; k" := (bind m (λ x, k))
  (at level 100, m at next level, right associativity) : comp_scope.
Notation "m ;; k" := (bind m (λ _, k))
  (at level 100, right associativity) : comp_scope.
Local Open Scope comp_scope.

(** ** ArrayRef *)

(** [a[i]]. The source indexes with [size_t]; a negative [i] stands for the
    index that the unsigned subtraction wraps to, which lies outside every
    array. Reading outside the array is reported as [OutOfBounds]. *)
Definition ArrayRef_at (a : list Z) (i : Z) : Error + Z :=
  if 0 <=? i then
    match a !! Z.to_nat i with
    | Some x => inr x
    | None => inl OutOfBounds
    end
  else inl OutOfBounds.

(** [a.slice(N, M)]: [M] elements from position [N]; requires
    [N + M <= a.size()]. *)
Definition ArrayRef_slice (a : list Z) (N M : Z) : Error + list Z :=
  if (0 <=? N) && (0 <=? M) && (N + M <=? Z.of_nat (length a)) then
    inr (take (Z.to_nat M) (drop (Z.to_nat N) a))
  else inl OutOfBounds.

(** ** The tensor store *)

(** A handle names a dense tensor of the store; the store maps the live
    handles to their tensors. *)
Abbreviation handle := positive (only parsing).
Abbreviation Store := (gmap positive ATen.Tensor) (only parsing).

Definition new_tensor (t : ATen.Tensor) : M Store handle :=
  λ h, let l := fresh (dom h) in (inr l, <[l:=t]> h).

Definition load (l : handle) : M Store ATen.Tensor :=
  λ h, match h !! l with
       | Some t => (inr t, h)
       | None => (inl UndefinedTensor, h)
       end.

Definition store_tensor (l : handle) (t : ATen.Tensor) : M Store unit :=
  modify (λ h : Store, <[l:=t]> h).

Module Tensor.

Definition sizes (l : handle) : M Store (list Z) :=
  t <- load l; ret (ATen.sizes t).

Definition dim (l : handle) : M Store Z :=
  t <- load l; ret (ATen.dim t).

Definition device (l : handle) : M Store Device :=
  t <- load l; ret (ATen.device t).

Definition scalar_type (l : handle) : M Store ScalarType :=
  t <- load l; ret (ATen.scalar_type t).

Definition size_last (l : handle) : M Store Z :=
  t <- load l; lift_result (ATen.size_last t).

Definition resize_ (l : handle) (sz : list Z) : M Store unit :=
  t <- load l; t' <- lift_result (ATen.resize_ t sz); store_tensor l t'.

(** A narrowed view shares the storage of its base tensor. *)
Record View := { base : handle; range : ATen.LastAxisRange }.

Definition narrow_last (l : handle) (start length : Z) : M Store View :=
  t <- load l;
  r <- lift_result (ATen.narrow_last t start length);
  ret {| base := l; range := r |}.

Definition fill_ (v : View) (x : Z) : M Store unit :=
  t <- load (base v); store_tensor (base v) (ATen.fill_range t (range v) x).

Definition zero_ (l : handle) : M Store unit :=
  t <- load l; store_tensor l (ATen.zero_ t).

Definition empty (sz : list Z) (dt : ScalarType) (dev : Device) : M Store handle :=
  t <- lift_result (ATen.empty sz dt dev); new_tensor t.

Definition empty_like (l : handle) : M Store handle :=
  t <- load l; new_tensor (ATen.empty_like t).

End Tensor.

(** ** The sparse compressed tensor *)

Inductive SizesStridesPolicy := Default | CustomStrides | CustomSizes.

(** The fields of [SparseCsrTensorImpl] and of its [TensorImpl] base that the
    file reads or writes. [sizes_] is the shape held by
    [sizes_and_strides_]. *)
Record SparseCsrTensorImpl := {
  key_set_ : DispatchKeySet;
  data_type_ : ScalarType;
  device_opt_ : Device;
  sizes_ : list Z;
  numel_ : Z;
  has_symbolic_sizes_strides_ : bool;
  storage_access_should_throw_ : bool;
  is_non_overlapping_and_dense_ : bool;
  sizes_strides_policy_ : SizesStridesPolicy;
  crow_indices_ : handle;
  col_indices_ : handle;
  values_ : handle;
  layout_ : Layout
}.

Definition with_sizes (sz : list Z) (s : SparseCsrTensorImpl) :=
  {| key_set_ := key_set_ s; data_type_ := data_type_ s;
     device_opt_ := device_opt_ s; sizes_ := sz; numel_ := numel_ s;
     has_symbolic_sizes_strides_ := has_symbolic_sizes_strides_ s;
     storage_access_should_throw_ := storage_access_should_throw_ s;
     is_non_overlapping_and_dense_ := is_non_overlapping_and_dense_ s;
     sizes_strides_policy_ := sizes_strides_policy_ s;
     crow_indices_ := crow_indices_ s; col_indices_ := col_indices_ s;
     values_ := values_ s; layout_ := layout_ s |}.

Definition with_numel (n : Z) (s : SparseCsrTensorImpl) :=
  {| key_set_ := key_set_ s; data_type_ := data_type_ s;
     device_opt_ := device_opt_ s; sizes_ := sizes_ s; numel_ := n;
     has_symbolic_sizes_strides_ := has_symbolic_sizes_strides_ s;
     storage_access_should_throw_ := storage_access_should_throw_ s;
     is_non_overlapping_and_dense_ := is_non_overlapping_and_dense_ s;
     sizes_strides_policy_ := sizes_strides_policy_ s;
     crow_indices_ := crow_indices_ s; col_indices_ := col_indices_ s;
     values_ := values_ s; layout_ := layout_ s |}.

Definition with_crow_indices (l : handle) (s : SparseCsrTensorImpl) :=
  {| key_set_ := key_set_ s; data_type_ := data_type_ s;
     device_opt_ := device_opt_ s; sizes_ := sizes_ s; numel_ := numel_ s;
     has_symbolic_sizes_strides_ := has_symbolic_sizes_strides_ s;
     storage_access_should_throw_ := storage_access_should_throw_ s;
     is_non_overlapping_and_dense_ := is_non_overlapping_and_dense_ s;
     sizes_strides_policy_ := sizes_strides_policy_ s;
     crow_indices_ := l; col_indices_ := col_indices_ s;
     values_ := values_ s; layout_ := layout_ s |}.

Definition with_col_indices (l : handle) (s : SparseCsrTensorImpl) :=
  {| key_set_ := key_set_ s; data_type_ := data_type_ s;
     device_opt_ := device_opt_ s; sizes_ := sizes_ s; numel_ := numel_ s;
     has_symbolic_sizes_strides_ := has_symbolic_sizes_strides_ s;
     storage_access_should_throw_ := storage_access_should_throw_ s;
     is_non_overlapping_and_dense_ := is_non_overlapping_and_dense_ s;
     sizes_strides_policy_ := sizes_strides_policy_ s;
     crow_indices_ := crow_indices_ s; col_indices_ := l;
     values_ := values_ s; layout_ := layout_ s |}.

Definition with_values (l : handle) (s : SparseCsrTensorImpl) :=
  {| key_set_ := key_set_ s; data_type_ := data_type_ s;
     device_opt_ := device_opt_ s; sizes_ := sizes_ s; numel_ := numel_ s;
     has_symbolic_sizes_strides_ := has_symbolic_sizes_strides_ s;
     storage_access_should_throw_ := storage_access_should_throw_ s;
     is_non_overlapping_and_dense_ := is_non_overlapping_and_dense_ s;
     sizes_strides_policy_ := sizes_strides_policy_ s;
     crow_indices_ := crow_indices_ s; col_indices_ := col_indices_ s;
     values_ := l; layout_ := layout_ s |}.

Definition with_layout (ly : Layout) (s : SparseCsrTensorImpl) :=
  {| key_set_ := key_set_ s; data_type_ := data_type_ s;
     device_opt_ := device_opt_ s; sizes_ := sizes_ s; numel_ := numel_ s;
     has_symbolic_sizes_strides_ := has_symbolic_sizes_strides_ s;
     storage_access_should_throw_ := storage_access_should_throw_ s;
     is_non_overlapping_and_dense_ := is_non_overlapping_and_dense_ s;
     sizes_strides_policy_ := sizes_strides_policy_ s;
     crow_indices_ := crow_indices_ s; col_indices_ := col_indices_ s;
     values_ := values_ s; layout_ := ly |}.

(** The state a method runs in: the store of dense tensors and the instance
    the method is called on. *)
Record World := { tensors : Store; this : SparseCsrTensorImpl }.

Definition on_store {A} (m : M Store A) : M World A :=
  λ w, let '(r, h) := m (tensors w) in (r, {| tensors := h; this := this w |}).

Definition field {A} (f : SparseCsrTensorImpl → A) : M World A :=
  gets (λ w, f (this w)).

Definition update_this (f : SparseCsrTensorImpl → SparseCsrTensorImpl) : M World unit :=
  modify (λ w, {| tensors := tensors w; this := f (this w) |}).

(** [typeMetaToScalarType]: the element type a [caffe2::TypeMeta] stands
    for; the model keeps a [TypeMeta] as that element type. *)
Definition typeMetaToScalarType (data_type : ScalarType) : ScalarType := data_type.

(** [sizes_and_strides_.set_sizes(size)] *)
Definition set_sizes (size : list Z) : M World unit :=
  update_this (with_sizes size).

(** [refresh_numel()]: recomputes the cached element count from the shape,
    in 64-bit arithmetic. *)
Definition refresh_numel : M World unit :=
  update_this (λ s, with_numel (foldr Int64.mul 1 (sizes_ s)) s).

(** Modelled from the spec: [set_layout] (declared in the header): the layout
    tag is one of the four compressed variants, any other is refused. *)
Definition set_layout (layout : Layout) : M World unit :=
  match layout with
  | kSparseCsr | kSparseCsc | kSparseBsr | kSparseBsc =>
      update_this (with_layout layout)
  | _ => throw UnsupportedLayout
  end.

(** [batch_dim()] (declared in the header): the compressed-index buffer has
    one axis more than there are batch dimensions. *)
Definition batch_dim : M World Z :=
  crow <- field crow_indices_;
  d <- on_store (Tensor.dim crow);
  ret (d - 1).

(** Modelled from the spec: the layout-family dispatch
    [AT_DISPATCH_ROW_SPARSE_COMPRESSED_LAYOUTS], a tagged-variant branch on
    which structural axis is compressed: rows for CSR/BSR, columns for
    CSC/BSC. *)
Definition AT_DISPATCH_ROW_SPARSE_COMPRESSED_LAYOUTS {S A}
    (layout : Layout) (row_action col_action : M S A) : M S A :=
  match layout with
  | kSparseCsr | kSparseBsr => row_action
  | kSparseCsc | kSparseBsc => col_action
  | _ => throw UnsupportedLayout
  end.

(** Modelled from the spec: the layout-family dispatch
    [AT_DISPATCH_PLAIN_SPARSE_COMPRESSED_LAYOUTS], a branch on whether the
    layout is plain (CSR/CSC) or block (BSR/BSC); the block action sees the
    layout as [the_layout]. *)
Definition AT_DISPATCH_PLAIN_SPARSE_COMPRESSED_LAYOUTS {S A}
    (layout : Layout) (plain_action : M S A) (block_action : Layout → M S A) : M S A :=
  match layout with
  | kSparseCsr | kSparseCsc => plain_action
  | kSparseBsr | kSparseBsc => block_action layout
  | _ => throw UnsupportedLayout
  end.

(** *** Construction *)

Definition SparseCsrTensorSetToDeviceType {S} (key_set : DispatchKeySet) : M S DeviceType :=
  if has key_set SparseCsrCPU then ret kCPU
  else if has key_set SparseCsrCUDA then ret kCUDA
  else throw InvalidDeviceTag.

(** [TensorOptions::device(DeviceType)]: a device of that type with no index
    chosen. *)
Definition device_of_type (ty : DeviceType) : Device :=
  {| dev_type := ty; dev_index := -1 |}.

Section Construction.

(** The shape and cached element count that the [TensorImpl] base constructor
    leaves behind; the constructors of this file do not set them. *)
Variable base_sizes : list Z.
Variable base_numel : Z.

(** The constructor from three buffers. The advisory of [TORCH_WARN_ONCE]
    changes neither the instance nor the store and is left out. *)
Definition SparseCsrTensorImpl_from_members
    (key_set : DispatchKeySet) (data_type : ScalarType)
    (crow_indices col_indices values : handle) (layout : Layout)
  : M Store SparseCsrTensorImpl :=
  values_device <- Tensor.device values;
  let self :=
    {| key_set_ := key_set; data_type_ := data_type;
       device_opt_ := values_device;
       sizes_ := base_sizes; numel_ := base_numel;
       has_symbolic_sizes_strides_ := false;
       storage_access_should_throw_ := true;
       is_non_overlapping_and_dense_ := false;
       sizes_strides_policy_ := CustomStrides;
       crow_indices_ := crow_indices; col_indices_ := col_indices;
       values_ := values; layout_ := layout |} in
  dv <- Tensor.device (values_ self);
  dc <- Tensor.device (crow_indices_ self);
  TORCH_CHECK (bool_decide (dv = dc)) DeviceMismatch;;
  dv <- Tensor.device (values_ self);
  dc <- Tensor.device (col_indices_ self);
  TORCH_CHECK (bool_decide (dv = dc)) DeviceMismatch;;
  ret self.

(** The empty constructor: three buffers of shape [{0}] on the device of the
    dispatch key, integer indices and values of the given element type. *)
Definition SparseCsrTensorImpl_empty
    (key_set : DispatchKeySet) (layout : Layout) (data_type : ScalarType)
  : M Store SparseCsrTensorImpl :=
  ty <- SparseCsrTensorSetToDeviceType key_set;
  crow_indices <- Tensor.empty [0] Int (device_of_type ty);
  ty <- SparseCsrTensorSetToDeviceType key_set;
  col_indices <- Tensor.empty [0] Int (device_of_type ty);
  ty <- SparseCsrTensorSetToDeviceType key_set;
  values <- Tensor.empty [0] data_type (device_of_type ty);
  SparseCsrTensorImpl_from_members
    key_set data_type crow_indices col_indices values layout.

End Construction.

(** *** The symbolic-shape guard shared by the mutating methods *)

Definition check_not_symbolic : M World unit :=
  symbolic <- field has_symbolic_sizes_strides_;
  TORCH_CHECK (negb symbolic) UnsupportedOnSymbolicShape.

(** *** [resize_] *)

Definition resize_ (nnz : Z) (size : list Z) : M World unit :=
  check_not_symbolic;;
  let len := Z.of_nat (length size) in
  rows <- lift_result (ArrayRef_at size (len - 2));
  cols <- lift_result (ArrayRef_at size (len - 1));
  crow <- field crow_indices_;
  old_crow_indices_size <- on_store (Tensor.size_last crow);
  batch <- lift_result (ArrayRef_slice size 0 (len - 2));
  let new_crow_indices_size := batch ++ [Int64.add rows 1] in
  crow <- field crow_indices_;
  on_store (Tensor.resize_ crow new_crow_indices_size);;
  (if old_crow_indices_size <=? Int64.add rows 1 then
     crow <- field crow_indices_;
     v <- on_store (Tensor.narrow_last crow old_crow_indices_size
                      (Int64.sub (Int64.add rows 1) old_crow_indices_size));
     on_store (Tensor.fill_ v nnz)
   else
     crow <- field crow_indices_;
     v <- on_store (Tensor.narrow_last crow rows 1);
     on_store (Tensor.fill_ v (Z.min nnz (Int64.mul rows cols))));;
  batch <- lift_result (ArrayRef_slice size 0 (len - 2));
  let col_indices_values_size := batch ++ [Z.min nnz (Int64.mul rows cols)] in
  col <- field col_indices_;
  on_store (Tensor.resize_ col col_indices_values_size);;
  values <- field values_;
  on_store (Tensor.resize_ values col_indices_values_size);;
  set_sizes size.

(** *** [resize_and_clear_] *)

Definition resize_and_clear_ (sparse_dim : Z) (size : list Z) : M World unit :=
  check_not_symbolic;;
  TORCH_CHECK (2 <=? sparse_dim) InvalidArgument;;
  TORCH_CHECK (sparse_dim <=? Z.of_nat (length size)) InvalidArgument;;
  let len := Z.of_nat (length size) in
  let batch_dim' := sparse_dim - 2 in
  batchsize <- lift_result (ArrayRef_slice size 0 batch_dim');
  densesize <- lift_result
    (ArrayRef_slice size (batch_dim' + 2) (len - batch_dim' - 2));
  let values_size := batchsize ++ [0] ++ densesize in
  let col_indices_size := batchsize ++ [0] in
  layout <- field layout_;
  n_compressed_indices <-
    AT_DISPATCH_ROW_SPARSE_COMPRESSED_LAYOUTS layout
      (lift_result (ArrayRef_at size batch_dim'))
      (lift_result (ArrayRef_at size (batch_dim' + 1)));
  layout <- field layout_;
  vn <- AT_DISPATCH_PLAIN_SPARSE_COMPRESSED_LAYOUTS layout
      (ret (values_size, n_compressed_indices))
      (λ the_layout,
         values <- field values_;
         values_sizes <- on_store (Tensor.sizes values);
         bd <- batch_dim;
         blocksize <- lift_result (ArrayRef_slice values_sizes (bd + 1) 2);
         edge <- lift_result
           (ArrayRef_at blocksize (if bool_decide (the_layout = kSparseBsr) then 0 else 1));
         n <- lift_result (int64_divide n_compressed_indices edge);
         ret (values_size ++ blocksize, n));
  let values_size := vn.1 in
  let n_compressed_indices := vn.2 in
  let crow_indices_size := batchsize ++ [Int64.add n_compressed_indices 1] in
  crow <- field crow_indices_;
  on_store (Tensor.resize_ crow crow_indices_size);;
  crow <- field crow_indices_;
  on_store (Tensor.zero_ crow);;
  col <- field col_indices_;
  on_store (Tensor.resize_ col col_indices_size);;
  values <- field values_;
  on_store (Tensor.resize_ values values_size);;
  set_sizes size;;
  refresh_numel.

(** *** [resize_as_sparse_csr_tensor_] *)

(** The argument [src] is a tensor handle: it may name the instance the
    method is called on, or another sparse compressed tensor. *)
Inductive Source :=
| SrcThis
| SrcOther (impl : SparseCsrTensorImpl).

Definition src_field {A} (src : Source) (f : SparseCsrTensorImpl → A) : M World A :=
  match src with
  | SrcThis => field f
  | SrcOther impl => ret (f impl)
  end.

Definition resize_as_sparse_csr_tensor_ (src : Source) : M World unit :=
  check_not_symbolic;;
  src_layout <- src_field src layout_;
  set_layout src_layout;;
  src_crow <- src_field src crow_indices_;
  crow <- on_store (Tensor.empty_like src_crow);
  update_this (with_crow_indices crow);;
  src_col <- src_field src col_indices_;
  col <- on_store (Tensor.empty_like src_col);
  update_this (with_col_indices col);;
  src_values <- src_field src values_;
  values <- on_store (Tensor.empty_like src_values);
  update_this (with_values values);;
  src_sizes <- src_field src sizes_;
  set_sizes src_sizes;;
  refresh_numel.

(** *** [set_member_tensors] *)

Definition set_member_tensors
    (crow_indices col_indices values : handle) (size : list Z) : M World unit :=
  check_not_symbolic;;
  values_type <- on_store (Tensor.scalar_type values);
  data_type <- field data_type_;
  TORCH_CHECK (bool_decide (values_type = typeMetaToScalarType data_type))
    TypeMismatch;;
  update_this (with_crow_indices crow_indices);;
  update_this (with_col_indices col_indices);;
  update_this (with_values values);;
  set_sizes size;;
  refresh_numel;;
  v <- field values_; dv <- on_store (Tensor.device v);
  c <- field crow_indices_; dc <- on_store (Tensor.device c);
  TORCH_CHECK (bool_decide (dv = dc)) DeviceMismatch;;
  v <- field values_; dv <- on_store (Tensor.device v);
  c <- field col_indices_; dc <- on_store (Tensor.device c);
  TORCH_CHECK (bool_decide (dv = dc)) DeviceMismatch.

(** *** Dense-only queries and mutators

    Each body is a [TORCH_CHECK(false, ...)]; building the message reads
    [layout_] and writes nothing. *)

Definition strides_custom : M World (list Z) := throw UnsupportedOperation.
Definition sym_strides_custom : M World (list Z) := throw UnsupportedOperation.
Definition set_size (dim new_size : Z) : M World unit := throw UnsupportedOperation.
Definition set_stride (dim new_stride : Z) : M World unit := throw UnsupportedOperation.
Definition set_storage_offset (storage_offset : Z) : M World unit :=
  throw UnsupportedOperation.
Definition is_contiguous_custom (memory_format : MemoryFormat) : M World bool :=
  throw UnsupportedOperation.

(** ** Concrete stores and instances used by the examples below *)

Definition cpu : Device := device_of_type kCPU.
Definition cuda : Device := device_of_type kCUDA.

Definition tensor_on (dev : Device) (sz : list Z) (dt : ScalarType)
    (cells : list ATen.cell) : ATen.Tensor :=
  {| ATen.sizes := sz; ATen.scalar_type := dt; ATen.device := dev;
     ATen.storage := cells |}.

Definition instance_of (dt : ScalarType) (layout : Layout) (sz : list Z)
    (symbolic : bool) (crow col values : handle) : SparseCsrTensorImpl :=
  {| key_set_ := [SparseCsrCPU]; data_type_ := dt; device_opt_ := cpu;
     sizes_ := sz; numel_ := ATen.numel_of sz;
     has_symbolic_sizes_strides_ := symbolic;
     storage_access_should_throw_ := true;
     is_non_overlapping_and_dense_ := false;
     sizes_strides_policy_ := CustomStrides;
     crow_indices_ := crow; col_indices_ := col; values_ := values;
     layout_ := layout |}.

(** A 2x4 CSR matrix with five stored entries: rows [0,2) and [2,5). *)
Definition csr_2x4_store : Store :=
  <[1%positive := tensor_on cpu [3] Long [Some 0; Some 2; Some 5]]>
  (<[2%positive := tensor_on cpu [5] Long [Some 0; Some 3; Some 0; Some 1; Some 2]]>
  (<[3%positive := tensor_on cpu [5] Float [Some 11; Some 12; Some 13; Some 14; Some 15]]> ∅)).

Definition csr_2x4 : World :=
  {| tensors := csr_2x4_store;
     this := instance_of Float kSparseCsr [2; 4] false 1%positive 2%positive 3%positive |}.

(** The same matrix behind an instance whose shape is symbolic. *)
Definition csr_2x4_symbolic : World :=
  {| tensors := csr_2x4_store;
     this := instance_of Float kSparseCsr [2; 4] true 1%positive 2%positive 3%positive |}.

(** The store of [csr_2x4] with three more buffers prepared by a caller:
    index buffers on the CPU (4, 5), values on a CUDA device (6) and values
    of another element type (7). *)
Definition csr_2x4_with_candidates : World :=
  {| tensors :=
       <[4%positive := tensor_on cpu [3] Long [Some 0; Some 1; Some 2]]>
       (<[5%positive := tensor_on cpu [2] Long [Some 0; Some 1]]>
       (<[6%positive := tensor_on cuda [2] Float [Some 21; Some 22]]>
       (<[7%positive := tensor_on cpu [2] Double [Some 21; Some 22]]>
        csr_2x4_store)));
     this := instance_of Float kSparseCsr [2; 4] false 1%positive 2%positive 3%positive |}.

(** A batch of two 1x5 CSR matrices with two stored entries each:
    compressed indices [[0,2],[0,2]]. *)
Definition batched_csr : World :=
  {| tensors :=
       <[1%positive := tensor_on cpu [2; 2] Long [Some 0; Some 2; Some 0; Some 2]]>
       (<[2%positive := tensor_on cpu [2; 2] Long [Some 0; Some 3; Some 1; Some 4]]>
       (<[3%positive := tensor_on cpu [2; 2] Float [Some 11; Some 12; Some 13; Some 14]]> ∅));
     this := instance_of Float kSparseCsr [2; 1; 5] false 1%positive 2%positive 3%positive |}.

(** A 4x6 BSR matrix with one stored block of shape 2x3. *)
Definition bsr_4x6 : World :=
  {| tensors :=
       <[1%positive := tensor_on cpu [3] Long [Some 0; Some 1; Some 1]]>
       (<[2%positive := tensor_on cpu [1] Long [Some 1]]>
       (<[3%positive := tensor_on cpu [1; 2; 3] Float
                          [Some 1; Some 2; Some 3; Some 4; Some 5; Some 6]]> ∅));
     this := instance_of Float kSparseBsr [4; 6] false 1%positive 2%positive 3%positive |}.

(** A 4x4 BSR matrix with two stored blocks of shape 2x2. *)
Definition bsr_4x4 : World :=
  {| tensors :=
       <[1%positive := tensor_on cpu [3] Long [Some 0; Some 1; Some 2]]>
       (<[2%positive := tensor_on cpu [2] Long [Some 0; Some 1]]>
       (<[3%positive := tensor_on cpu [2; 2; 2] Float (replicate 8 (Some 9))]> ∅));
     this := instance_of Float kSparseBsr [4; 4] false 1%positive 2%positive 3%positive |}.

(** ** Notions used to state the properties *)

(** The instance that a [Source] handle names in a given world. *)
Definition source_of (src : Source) (w : World) : SparseCsrTensorImpl :=
  match src with
  | SrcThis => this w
  | SrcOther impl => impl
  end.

Definition is_compressed (layout : Layout) : bool :=
  match layout with
  | kSparseCsr | kSparseCsc | kSparseBsr | kSparseBsc => true
  | _ => false
  end.

(** [l] names, in [h'], a buffer allocated after [h] was taken, shaped, typed
    and placed like [t], and without a single written cell. *)
Definition fresh_like (h h' : Store) (l : handle) (t : ATen.Tensor) : Prop :=
  h !! l = None ∧
  ∃ t', h' !! l = Some t' ∧
        ATen.sizes t' = ATen.sizes t ∧
        ATen.scalar_type t' = ATen.scalar_type t ∧
        ATen.device t' = ATen.device t ∧
        ATen.storage t' = replicate (Z.to_nat (ATen.numel t)) None.

(** The block shape that the values buffer [tv] holds, next to the
    compressed-index buffer [tc]: the two axes of [tv] that follow its
    entries axis; the entries axis sits behind the batch axes, of which [tc]
    has one fewer than it has axes. *)
Definition block_shape (tc tv : ATen.Tensor) : option (Z * Z) :=
  match drop (length (ATen.sizes tc)) (ATen.sizes tv) with
  | block_rows :: block_cols :: _ => Some (block_rows, block_cols)
  | _ => None
  end.

(** The number of compressed groups, in the words of the specification: the
    length of the structural axis the layout compresses (rows for CSR/BSR,
    columns for CSC/BSC), divided by the corresponding block edge for the
    block layouts. *)
Definition compressed_groups
    (layout : Layout) (rows cols : Z) (block : option (Z * Z)) : option Z :=
  match layout, block with
  | kSparseCsr, _ => Some rows
  | kSparseCsc, _ => Some cols
  | kSparseBsr, Some (block_rows, _) => Some (Int64.div rows block_rows)
  | kSparseBsc, Some (_, block_cols) => Some (Int64.div cols block_cols)
  | _, _ => None
  end.

(** The trailing axes that [resize_and_clear_] gives the values buffer after
    the entries axis: the dense tail, and for the block layouts the block
    shape. *)
Definition values_tail
    (layout : Layout) (dense : list Z) (block : option (Z * Z)) : option (list Z) :=
  match layout, block with
  | (kSparseCsr | kSparseCsc), _ => Some dense
  | (kSparseBsr | kSparseBsc), Some (block_rows, block_cols) =>
      Some (dense ++ [block_rows; block_cols])
  | _, _ => None
  end.

(** ** Notions used to state the further properties *)

(** [keeps R m]: whatever [m] returns or raises, the state it leaves is
    related by [R] to the state it started in. *)
Definition keeps {S A} (R : S → S → Prop) (m : M S A) : Prop :=
  ∀ s r s', m s = (r, s') → R s s'.

(** The tags of a dense tensor that no operation of this file may change. *)
Definition tags (t : ATen.Tensor) : Device * ScalarType :=
  (ATen.device t, ATen.scalar_type t).

(** The two stores name the same tensors, each with the same tags. *)
Definition same_tags (h h' : Store) : Prop :=
  ∀ l : handle, tags <$> h' !! l = tags <$> h !! l.

(** Every tensor of [h] is in [h'] as it was. *)
Definition store_extends (h h' : Store) : Prop :=
  ∀ (l : handle) t, h !! l = Some t → h' !! l = Some t.

(** The instance names the same three buffers and carries the same layout,
    element type and symbolic-shape flag. *)
Definition same_members (s s' : SparseCsrTensorImpl) : Prop :=
  crow_indices_ s' = crow_indices_ s ∧
  col_indices_ s' = col_indices_ s ∧
  values_ s' = values_ s ∧
  layout_ s' = layout_ s ∧
  data_type_ s' = data_type_ s ∧
  has_symbolic_sizes_strides_ s' = has_symbolic_sizes_strides_ s.

Definition buffers_in_place (w w' : World) : Prop :=
  same_tags (tensors w) (tensors w') ∧ same_members (this w) (this w').

(** The store is exactly as it was. *)
Definition store_unchanged (w w' : World) : Prop := tensors w' = tensors w.

(** Every tensor that was in the store is still there as it was. *)
Definition world_extends (w w' : World) : Prop :=
  store_extends (tensors w) (tensors w').

(** The cross-field invariants of the data model: the three buffers exist and
    sit on one device, and the values have the element type of the
    instance. *)
Definition devices_agree (h : Store) (s : SparseCsrTensorImpl) : Prop :=
  ∃ tc tp tv,
    h !! crow_indices_ s = Some tc ∧
    h !! col_indices_ s = Some tp ∧
    h !! values_ s = Some tv ∧
    ATen.device tv = ATen.device tc ∧
    ATen.device tv = ATen.device tp.

Definition values_typed (h : Store) (s : SparseCsrTensorImpl) : Prop :=
  ∃ tv,
    h !! values_ s = Some tv ∧
    ATen.scalar_type tv = typeMetaToScalarType (data_type_ s).

(** The storage of the tensor covers its elements. *)
Definition storage_covers (t : ATen.Tensor) : Prop :=
  (Z.to_nat (ATen.numel t) ≤ length (ATen.storage t))%nat.

(** [t'] is [t] resized in place to the shape [sz]: the tags and the stored
    cells of [t] are kept, and every element beyond them was never
    written. *)
Definition resized_from (t t' : ATen.Tensor) (sz : list Z) : Prop :=
  ATen.sizes t' = sz ∧
  tags t' = tags t ∧
  (∀ k : nat, (k < length (ATen.storage t))%nat →
     ATen.storage t' !! k = ATen.storage t !! k) ∧
  (∀ k : nat, (length (ATen.storage t) ≤ k)%nat → Z.of_nat k < ATen.numel t' →
     ATen.storage t' !! k = Some None).

(** Whether the block edge that [resize_and_clear_] divides by is non-zero;
    the plain layouts divide by nothing. *)
Definition block_edge_nonzero (layout : Layout) (block : option (Z * Z)) : Prop :=
  match layout, block with
  | kSparseBsr, Some (block_rows, _) => block_rows ≠ 0
  | kSparseBsc, Some (_, block_cols) => block_cols ≠ 0
  | _, _ => True
  end.

(** A layout that [resize_and_clear_] can serve: a plain compressed layout,
    or a block layout whose values buffer holds a block with positive
    edges. *)
Definition clearable (layout : Layout) (block : option (Z * Z)) : Prop :=
  match layout, block with
  | (kSparseCsr | kSparseCsc), _ => True
  | (kSparseBsr | kSparseBsc), Some (block_rows, block_cols) =>
      0 < block_rows ∧ 0 < block_cols
  | _, _ => False
  end.

(** An instance as the empty constructor leaves it: three buffers of shape
    [0] without storage. *)
Definition placeholder (layout : Layout) : World :=
  {| tensors :=
       <[1%positive := tensor_on cpu [0] Int []]>
       (<[2%positive := tensor_on cpu [0] Int []]>
       (<[3%positive := tensor_on cpu [0] Float []]> ∅));
     this := instance_of Float layout [0] false 1%positive 2%positive 3%positive |}.

(** ** Properties *)

(** *** 64-bit arithmetic *)

Module Int64Facts.

Lemma wrap_in_range z : Int64.in_range (Int64.wrap z).
Proof.
  unfold Int64.in_range, Int64.wrap, Int64.min_signed, Int64.max_signed.
  pose proof (Z.mod_pos_bound (z + Int64.half_modulus) Int64.modulus) as Hb.
  unfold Int64.modulus, Int64.half_modulus in *. lia.
Qed.

Lemma wrap_id z : Int64.in_range z → Int64.wrap z = z.
Proof.
  unfold Int64.in_range, Int64.wrap, Int64.min_signed, Int64.max_signed.
  unfold Int64.modulus, Int64.half_modulus. intros Hz.
  rewrite Z.mod_small; lia.
Qed.

(** Adding one overflows to a negative number only; a non-negative result is
    the exact sum. *)
Lemma add_one_nonneg z :
  Int64.in_range z → 0 <= Int64.add z 1 → Int64.add z 1 = z + 1.
Proof.
  unfold Int64.add. intros Hz Hnn.
  destruct (decide (z = Int64.max_signed)) as [->|Hne].
  - exfalso. vm_compute in Hnn. by apply Hnn.
  - apply wrap_id. unfold Int64.in_range, Int64.min_signed, Int64.max_signed in *.
    lia.
Qed.

(** On a non-negative dividend and a positive divisor the 64-bit division is
    the integer quotient. *)
Lemma div_exact a b :
  0 <= a → Int64.in_range a → 0 < b → Int64.div a b = a / b.
Proof.
  unfold Int64.div. intros Ha Hr Hb.
  rewrite Z.quot_div_nonneg by lia. apply wrap_id.
  pose proof (Z.div_pos a b Ha Hb). pose proof (Z.div_le_upper_bound a b a Hb).
  unfold Int64.in_range, Int64.min_signed, Int64.max_signed in *. nia.
Qed.

End Int64Facts.

(** *** Running a computation to a result *)

Section Inversion.

Context {S : Type}.

Lemma bind_ok {A B} (m : M S A) (f : A → M S B) s b s' :
  bind m f s = (inr b, s') →
  ∃ a s1, m s = (inr a, s1) ∧ f a s1 = (inr b, s').
Proof.
  unfold bind. destruct (m s) as [[e|a] s1]; [discriminate|]. eauto.
Qed.

Lemma bind_run {A B} (m : M S A) (f : A → M S B) s a s1 :
  m s = (inr a, s1) → bind m f s = f a s1.
Proof. unfold bind. by intros ->. Qed.

Lemma bind_raise {A B} (m : M S A) (f : A → M S B) s e s1 :
  m s = (inl e, s1) → bind m f s = (inl e, s1).
Proof. unfold bind. by intros ->. Qed.

Lemma ret_ok {A} (a b : A) (s s' : S) :
  ret a s = (inr b, s') → b = a ∧ s' = s.
Proof. unfold ret. by intros [= -> ->]. Qed.

Lemma TORCH_CHECK_ok cond e (s s' : S) u :
  TORCH_CHECK cond e s = (inr u, s') → cond = true ∧ s' = s.
Proof. destruct cond; cbn; [by intros [= _ ->] | discriminate]. Qed.

Lemma lift_result_ok {A} (r : Error + A) (s s' : S) a :
  lift_result r s = (inr a, s') → r = inr a ∧ s' = s.
Proof. destruct r; cbn; [discriminate | by intros [= -> ->]]. Qed.

End Inversion.

(** [run H]: take the step [H : m s = (inr a, s1)] at the head of a sequence. *)
Ltac run H := rewrite (bind_run _ _ _ _ _ H); cbv beta.

Lemma field_ok {A} (f : SparseCsrTensorImpl → A) w a w' :
  field f w = (inr a, w') → a = f (this w) ∧ w' = w.
Proof. by intros [= <- <-]. Qed.

Lemma on_store_ok {A} (m : M Store A) w a w' :
  on_store m w = (inr a, w') →
  ∃ h, m (tensors w) = (inr a, h) ∧ w' = {| tensors := h; this := this w |}.
Proof.
  unfold on_store. destruct (m (tensors w)) as [r h]. intros [= -> <-]. eauto.
Qed.

Lemma load_ok l (h h' : Store) t :
  load l h = (inr t, h') → h !! l = Some t ∧ h' = h.
Proof. unfold load. destruct (h !! l); [by intros [= -> ->] | discriminate]. Qed.

Lemma load_run l (h : Store) t : h !! l = Some t → load l h = (inr t, h).
Proof. unfold load. by intros ->. Qed.

Lemma Tensor_device_run l (h : Store) t :
  h !! l = Some t → Tensor.device l h = (inr (ATen.device t), h).
Proof. intros H. unfold Tensor.device. by rewrite (bind_run _ _ _ _ _ (load_run _ _ _ H)). Qed.

Lemma TORCH_CHECK_run {S} cond e (s : S) :
  cond = true → TORCH_CHECK cond e s = (inr (), s).
Proof. by intros ->. Qed.

Lemma Tensor_resize_ok l sz (h h' : Store) u :
  Tensor.resize_ l sz h = (inr u, h') →
  ∃ t t', h !! l = Some t ∧ ATen.resize_ t sz = inr t' ∧ h' = <[l:=t']> h.
Proof.
  unfold Tensor.resize_. intros H.
  apply bind_ok in H as (t & h1 & Hl & H). apply load_ok in Hl as [Hl ->].
  apply bind_ok in H as (t' & h2 & Hr & H). apply lift_result_ok in Hr as [Hr ->].
  injection H as <-. eauto.
Qed.

Lemma Tensor_zero_ok l (h h' : Store) u :
  Tensor.zero_ l h = (inr u, h') →
  ∃ t, h !! l = Some t ∧ h' = <[l:=ATen.zero_ t]> h.
Proof.
  unfold Tensor.zero_. intros H.
  apply bind_ok in H as (t & h1 & Hl & H). apply load_ok in Hl as [Hl ->].
  injection H as <-. eauto.
Qed.

Lemma Tensor_fill_narrow_ok l start len x (h h' : Store) u :
  bind (Tensor.narrow_last l start len) (λ v, Tensor.fill_ v x) h = (inr u, h') →
  ∃ t r, h !! l = Some t ∧ ATen.narrow_last t start len = inr r ∧
         h' = <[l:=ATen.fill_range t r x]> h.
Proof.
  intros H. apply bind_ok in H as (v & h1 & Hn & H).
  unfold Tensor.narrow_last in Hn.
  apply bind_ok in Hn as (t & h2 & Hl & Hn). apply load_ok in Hl as [Hl ->].
  apply bind_ok in Hn as (r & h3 & Hr & Hn). apply lift_result_ok in Hr as [Hr ->].
  apply ret_ok in Hn as [-> ->].
  unfold Tensor.fill_ in H. cbn in H.
  apply bind_ok in H as (t2 & h4 & Hl2 & H). apply load_ok in Hl2 as [Hl2 ->].
  injection H as <-. assert (t2 = t) as -> by congruence. eauto.
Qed.

(** *** The symbolic-shape guard *)

Lemma check_not_symbolic_raise w :
  has_symbolic_sizes_strides_ (this w) = true →
  check_not_symbolic w = (inl UnsupportedOnSymbolicShape, w).
Proof. unfold check_not_symbolic, bind, field, gets. by intros ->. Qed.

Lemma check_not_symbolic_pass w :
  has_symbolic_sizes_strides_ (this w) = false →
  check_not_symbolic w = (inr (), w).
Proof. unfold check_not_symbolic, bind, field, gets. by intros ->. Qed.

Lemma check_not_symbolic_ok w u w' :
  check_not_symbolic w = (inr u, w') →
  has_symbolic_sizes_strides_ (this w) = false ∧ w' = w.
Proof.
  unfold check_not_symbolic, bind, field, gets.
  destruct (has_symbolic_sizes_strides_ (this w)); [discriminate|].
  by intros [= _ <-].
Qed.

(** C10. Each of the four mutating methods -- [resize_],
    [resize_and_clear_], [resize_as_sparse_csr_tensor_] and
    [set_member_tensors] -- called on an instance whose shape is symbolic
    raises, and the store and the instance are exactly as before the call:
    the guard runs before any buffer or shape is touched. *)
Theorem symbolic_shape_rejected_before_mutation (w : World) :
  has_symbolic_sizes_strides_ (this w) = true →
  (∀ nnz size, resize_ nnz size w = (inl UnsupportedOnSymbolicShape, w)) ∧
  (∀ sparse_dim size,
     resize_and_clear_ sparse_dim size w = (inl UnsupportedOnSymbolicShape, w)) ∧
  (∀ src,
     resize_as_sparse_csr_tensor_ src w = (inl UnsupportedOnSymbolicShape, w)) ∧
  (∀ crow_indices col_indices values size,
     set_member_tensors crow_indices col_indices values size w
     = (inl UnsupportedOnSymbolicShape, w)).
Proof.
  intros Hsym. pose proof (check_not_symbolic_raise w Hsym) as Hguard.
  repeat split; intros;
    [unfold resize_ | unfold resize_and_clear_
    | unfold resize_as_sparse_csr_tensor_ | unfold set_member_tensors];
    by apply bind_raise.
Qed.

Lemma symbolic_shape_rejected_before_mutation_witness :
  resize_ 5 [4; 4] csr_2x4_symbolic
    = (inl UnsupportedOnSymbolicShape, csr_2x4_symbolic) ∧
  resize_and_clear_ 2 [5; 5] csr_2x4_symbolic
    = (inl UnsupportedOnSymbolicShape, csr_2x4_symbolic) ∧
  resize_as_sparse_csr_tensor_ SrcThis csr_2x4_symbolic
    = (inl UnsupportedOnSymbolicShape, csr_2x4_symbolic) ∧
  set_member_tensors 1%positive 2%positive 3%positive [2; 4] csr_2x4_symbolic
    = (inl UnsupportedOnSymbolicShape, csr_2x4_symbolic).
Proof.
  destruct (symbolic_shape_rejected_before_mutation csr_2x4_symbolic eq_refl)
    as (H1 & H2 & H3 & H4).
  exact (conj (H1 5 [4; 4])
          (conj (H2 2 [5; 5]) (conj (H3 SrcThis) (H4 1%positive 2%positive 3%positive [2; 4])))).
Defined.

(** *** Dense-only operations *)

(** C7. The strides queries, the element-level size and stride mutators, the
    storage-offset mutator and the contiguity query raise
    [UnsupportedOperation] on every instance, whatever their arguments; none
    returns a value and none changes the instance or the store. *)
Theorem dense_only_operations_raise (w : World) :
  strides_custom w = (inl UnsupportedOperation, w) ∧
  sym_strides_custom w = (inl UnsupportedOperation, w) ∧
  (∀ dim new_size, set_size dim new_size w = (inl UnsupportedOperation, w)) ∧
  (∀ dim new_stride, set_stride dim new_stride w = (inl UnsupportedOperation, w)) ∧
  (∀ storage_offset,
     set_storage_offset storage_offset w = (inl UnsupportedOperation, w)) ∧
  (∀ memory_format,
     is_contiguous_custom memory_format w = (inl UnsupportedOperation, w)).
Proof. by repeat split. Qed.

(** *** Argument checks of [resize_and_clear_] *)

(** C8. On an instance with a concrete shape, [resize_and_clear_] called
    with [sparse_dim < 2], or with a shape shorter than [sparse_dim], raises
    [InvalidArgument] and leaves the store and the instance exactly as they
    were. *)
Theorem resize_and_clear_invalid_argument (w : World) (sparse_dim : Z) (size : list Z) :
  has_symbolic_sizes_strides_ (this w) = false →
  sparse_dim < 2 ∨ Z.of_nat (length size) < sparse_dim →
  resize_and_clear_ sparse_dim size w = (inl InvalidArgument, w).
Proof.
  intros Hsym Hbad. unfold resize_and_clear_.
  rewrite (bind_run _ _ _ _ _ (check_not_symbolic_pass w Hsym)).
  destruct (2 <=? sparse_dim) eqn:Hsd.
  - assert ((sparse_dim <=? Z.of_nat (length size)) = false) as Hlen by lia.
    cbn. unfold bind at 1. cbn. by rewrite Hlen.
  - reflexivity.
Qed.

Lemma resize_and_clear_invalid_argument_witness :
  resize_and_clear_ 1 [5; 5] csr_2x4 = (inl InvalidArgument, csr_2x4) ∧
  resize_and_clear_ 3 [5; 5] csr_2x4 = (inl InvalidArgument, csr_2x4).
Proof.
  split.
  - apply resize_and_clear_invalid_argument; [reflexivity | left; lia].
  - apply resize_and_clear_invalid_argument; [reflexivity | right; cbn; lia].
Defined.

(** *** [set_member_tensors] *)

(** The element-type check comes first: a call on a concrete-shape instance
    with values of another element type raises [TypeMismatch] and leaves
    the store and the instance exactly as they were. *)
Lemma set_member_tensors_type_mismatch w crow_indices col_indices values size t :
  has_symbolic_sizes_strides_ (this w) = false →
  tensors w !! values = Some t →
  ATen.scalar_type t ≠ typeMetaToScalarType (data_type_ (this w)) →
  set_member_tensors crow_indices col_indices values size w = (inl TypeMismatch, w).
Proof.
  intros Hsym Hv Hty. unfold set_member_tensors.
  rewrite (bind_run _ _ _ _ _ (check_not_symbolic_pass w Hsym)).
  unfold bind at 1. unfold on_store, Tensor.scalar_type, bind, load. rewrite Hv. cbn.
  rewrite bool_decide_eq_false_2 by done. by destruct w.
Qed.

(** The device checks come last: whenever the call raises [DeviceMismatch],
    the instance already holds the three new buffers and the new shape. *)
Lemma set_member_tensors_device_mismatch w crow_indices col_indices values size w' :
  set_member_tensors crow_indices col_indices values size w = (inl DeviceMismatch, w') →
  tensors w' = tensors w ∧
  crow_indices_ (this w') = crow_indices ∧
  col_indices_ (this w') = col_indices ∧
  values_ (this w') = values ∧
  sizes_ (this w') = size.
Proof.
  unfold set_member_tensors, check_not_symbolic, bind, field, gets, on_store,
    update_this, set_sizes, refresh_numel, modify, Tensor.scalar_type,
    Tensor.device, bind, load, ret, TORCH_CHECK, throw.
  cbn.
  repeat (match goal with
          | |- context [if ?c then _ else _] => destruct c
          | |- context [match ?h !! ?l with _ => _ end] => destruct (h !! l)
          end; cbn);
    intros [= <-] || (intros; discriminate); by repeat split.
Qed.

(** C1. A caller prepares index buffers on the CPU and values of the right
    element type on a CUDA device, and passes them to [set_member_tensors] of
    a CPU instance. The call raises [DeviceMismatch], and the instance is not
    left as it was: it holds the three new buffers and the new shape, with
    values on another device than the indices. With values of a wrong element
    type the same call raises [TypeMismatch] and changes nothing. *)
Theorem set_member_tensors_device_mismatch_mutates :
  (∃ w',
     set_member_tensors 4%positive 5%positive 6%positive [2; 2] csr_2x4_with_candidates
       = (inl DeviceMismatch, w') ∧
     crow_indices_ (this csr_2x4_with_candidates) = 1%positive ∧
     col_indices_ (this csr_2x4_with_candidates) = 2%positive ∧
     values_ (this csr_2x4_with_candidates) = 3%positive ∧
     sizes_ (this csr_2x4_with_candidates) = [2; 4] ∧
     crow_indices_ (this w') = 4%positive ∧
     col_indices_ (this w') = 5%positive ∧
     values_ (this w') = 6%positive ∧
     sizes_ (this w') = [2; 2]) ∧
  set_member_tensors 4%positive 5%positive 7%positive [2; 2] csr_2x4_with_candidates
    = (inl TypeMismatch, csr_2x4_with_candidates).
Proof.
  split.
  - eexists. split; [vm_compute; reflexivity|]. by repeat split.
  - eapply set_member_tensors_type_mismatch; [reflexivity | by vm_compute | done].
Qed.

(** *** Allocation *)

Lemma new_tensor_ok t (h h' : Store) l :
  new_tensor t h = (inr l, h') → h !! l = None ∧ h' = <[l:=t]> h.
Proof.
  unfold new_tensor. intros [= <- <-]. split; [|done].
  apply not_elem_of_dom. apply is_fresh.
Qed.

Lemma new_tensor_run t (h : Store) :
  ∃ l, new_tensor t h = (inr l, <[l:=t]> h) ∧ h !! l = None.
Proof.
  exists (fresh (dom h)). split; [done|]. apply not_elem_of_dom, is_fresh.
Qed.

(** *** Empty construction *)

Lemma SparseCsrTensorSetToDeviceType_run key_set :
  has key_set SparseCsrCPU || has key_set SparseCsrCUDA = true →
  ∃ ty, ∀ S (s : S), SparseCsrTensorSetToDeviceType key_set s = (inr ty, s).
Proof.
  unfold SparseCsrTensorSetToDeviceType. intros H.
  destruct (has key_set SparseCsrCPU); [by eexists|].
  destruct (has key_set SparseCsrCUDA); [by eexists | discriminate].
Qed.

Lemma Tensor_empty_run sz dt dev (h : Store) :
  ATen.size_nonnegative sz = true →
  ∃ l,
    Tensor.empty sz dt dev h
      = (inr l, <[l:=tensor_on dev sz dt
                       (replicate (Z.to_nat (ATen.numel_of sz)) None)]> h) ∧
    h !! l = None.
Proof.
  intros Hnn. unfold Tensor.empty, ATen.empty. rewrite Hnn. cbn [lift_result].
  destruct (new_tensor_run
              (tensor_on dev sz dt (replicate (Z.to_nat (ATen.numel_of sz)) None)) h)
    as (l & Hrun & Hfresh).
  exists l. split; [|done]. unfold bind, ret. cbv beta iota. exact Hrun.
Qed.

Lemma SparseCsrTensorSetToDeviceType_raise {S} key_set (s : S) :
  has key_set SparseCsrCPU || has key_set SparseCsrCUDA = false →
  SparseCsrTensorSetToDeviceType (S:=S) key_set s = (inl InvalidDeviceTag, s).
Proof.
  unfold SparseCsrTensorSetToDeviceType. intros H.
  destruct (has key_set SparseCsrCPU); [discriminate|].
  by destruct (has key_set SparseCsrCUDA).
Qed.

(** The claim of a length-one compressed-index buffer holding a zero fails
    already for the empty CSR construction on the CPU in an empty store. *)
Lemma empty_construction_crow_is_not_single_zero :
  ¬ ∃ self h' crow,
      SparseCsrTensorImpl_empty [0] 0 [SparseCsrCPU] kSparseCsr Float (∅ : Store)
        = (inr self, h') ∧
      h' !! crow_indices_ self = Some crow ∧
      ATen.sizes crow = [1] ∧ ATen.contents crow = [Some 0].
Proof.
  intros (self & h' & crow & Hrun & Hcrow & Hsizes & _).
  vm_compute in Hrun. injection Hrun as <- <-.
  vm_compute in Hcrow. injection Hcrow as <-. discriminate.
Qed.

(** C4 (amended). Empty construction for a dispatch key set that names a
    sparse-compressed backend succeeds and yields three distinct, newly
    allocated buffers, each of shape [0] and so without any entry: integer
    compressed and plain indices and values of the requested element type,
    all on the device of the key set. The compressed-index buffer has length
    0, not length 1. *)
Theorem empty_construction_buffers
    (base_sizes : list Z) (base_numel : Z) (key_set : DispatchKeySet)
    (layout : Layout) (data_type : ScalarType) (h : Store) :
  has key_set SparseCsrCPU || has key_set SparseCsrCUDA = true →
  ∃ self h' ty,
    SparseCsrTensorImpl_empty base_sizes base_numel key_set layout data_type h
      = (inr self, h') ∧
    h' !! crow_indices_ self = Some (tensor_on (device_of_type ty) [0] Int []) ∧
    h' !! col_indices_ self = Some (tensor_on (device_of_type ty) [0] Int []) ∧
    h' !! values_ self = Some (tensor_on (device_of_type ty) [0] data_type []) ∧
    h !! crow_indices_ self = None ∧
    h !! col_indices_ self = None ∧
    h !! values_ self = None ∧
    crow_indices_ self ≠ col_indices_ self ∧
    crow_indices_ self ≠ values_ self ∧
    col_indices_ self ≠ values_ self ∧
    layout_ self = layout ∧ data_type_ self = data_type.
Proof.
  intros Hkey.
  destruct (SparseCsrTensorSetToDeviceType_run key_set Hkey) as [ty Hty].
  set (ti := tensor_on (device_of_type ty) [0] Int []).
  set (tv := tensor_on (device_of_type ty) [0] data_type []).
  destruct (Tensor_empty_run [0] Int (device_of_type ty) h eq_refl)
    as (l1 & Hn1 & Hf1).
  destruct (Tensor_empty_run [0] Int (device_of_type ty) (<[l1:=ti]> h) eq_refl)
    as (l2 & Hn2 & Hf2).
  destruct (Tensor_empty_run [0] data_type (device_of_type ty)
              (<[l2:=ti]> (<[l1:=ti]> h)) eq_refl) as (l3 & Hn3 & Hf3).
  cbn [ATen.numel_of foldr Z.mul Z.to_nat replicate] in Hn1, Hn2, Hn3.
  fold ti in Hn1, Hn2. fold tv in Hn3.
  assert (l1 ≠ l2) as H12 by (intros ->; by rewrite lookup_insert_eq in Hf2).
  assert (l2 ≠ l3) as H23 by (intros ->; by rewrite lookup_insert_eq in Hf3).
  assert (l1 ≠ l3) as H13.
  { intros ->. rewrite lookup_insert_ne, lookup_insert_eq in Hf3; done. }
  assert (<[l3:=tv]> (<[l2:=ti]> (<[l1:=ti]> h)) !! l1 = Some ti) as Hl1.
  { by rewrite !lookup_insert_ne, lookup_insert_eq by done. }
  assert (<[l3:=tv]> (<[l2:=ti]> (<[l1:=ti]> h)) !! l2 = Some ti) as Hl2.
  { by rewrite lookup_insert_ne, lookup_insert_eq by done. }
  assert (<[l3:=tv]> (<[l2:=ti]> (<[l1:=ti]> h)) !! l3 = Some tv) as Hl3.
  { by rewrite lookup_insert_eq. }
  eexists _, (<[l3:=tv]> (<[l2:=ti]> (<[l1:=ti]> h))), ty.
  split.
  { unfold SparseCsrTensorImpl_empty.
    rewrite (bind_run _ _ _ _ _ (Hty _ _)), (bind_run _ _ _ _ _ Hn1).
    rewrite (bind_run _ _ _ _ _ (Hty _ _)), (bind_run _ _ _ _ _ Hn2).
    rewrite (bind_run _ _ _ _ _ (Hty _ _)), (bind_run _ _ _ _ _ Hn3).
    unfold SparseCsrTensorImpl_from_members.
    rewrite (bind_run _ _ _ _ _ (Tensor_device_run _ _ _ Hl3)).
    cbn [crow_indices_ col_indices_ values_].
    rewrite (bind_run _ _ _ _ _ (Tensor_device_run _ _ _ Hl3)).
    rewrite (bind_run _ _ _ _ _ (Tensor_device_run _ _ _ Hl1)).
    rewrite (bind_run _ _ _ _ _ (TORCH_CHECK_run _ _ _ (bool_decide_eq_true_2 _ eq_refl))).
    rewrite (bind_run _ _ _ _ _ (Tensor_device_run _ _ _ Hl3)).
    rewrite (bind_run _ _ _ _ _ (Tensor_device_run _ _ _ Hl2)).
    rewrite (bind_run _ _ _ _ _ (TORCH_CHECK_run _ _ _ (bool_decide_eq_true_2 _ eq_refl))).
    reflexivity. }
  cbn [crow_indices_ col_indices_ values_ layout_ data_type_].
  rewrite Hl1, Hl2, Hl3.
  rewrite lookup_insert_ne in Hf2 by done.
  rewrite !lookup_insert_ne in Hf3 by done.
  repeat split; done.
Qed.

Lemma empty_construction_buffers_witness :
  ∃ self h' ty,
    SparseCsrTensorImpl_empty [0] 0 [SparseCsrCPU] kSparseCsr Float (∅ : Store)
      = (inr self, h') ∧
    h' !! crow_indices_ self = Some (tensor_on (device_of_type ty) [0] Int []) ∧
    h' !! col_indices_ self = Some (tensor_on (device_of_type ty) [0] Int []) ∧
    h' !! values_ self = Some (tensor_on (device_of_type ty) [0] Float []) ∧
    (∅ : Store) !! crow_indices_ self = None ∧
    (∅ : Store) !! col_indices_ self = None ∧
    (∅ : Store) !! values_ self = None ∧
    crow_indices_ self ≠ col_indices_ self ∧
    crow_indices_ self ≠ values_ self ∧
    col_indices_ self ≠ values_ self ∧
    layout_ self = kSparseCsr ∧ data_type_ self = Float.
Proof.
  apply (empty_construction_buffers [0] 0 [SparseCsrCPU] kSparseCsr Float ∅).
  reflexivity.
Defined.

(** *** Re-templating *)

Lemma empty_like_run l (w : World) t :
  tensors w !! l = Some t →
  ∃ l',
    on_store (Tensor.empty_like l) w
      = (inr l', {| tensors := <[l':=ATen.empty_like t]> (tensors w); this := this w |}) ∧
    tensors w !! l' = None.
Proof.
  intros Hl. destruct (new_tensor_run (ATen.empty_like t) (tensors w)) as (l' & Hn & Hf).
  exists l'. split; [|done].
  unfold on_store, Tensor.empty_like.
  by rewrite (bind_run _ _ _ _ _ (load_run _ _ _ Hl)), Hn.
Qed.

(** C9. On a concrete-shape instance, re-templating from a source with a
    compressed layout succeeds. Afterwards the instance carries the source's
    layout tag and logical shape, and each of its three buffers is a newly
    allocated tensor -- not in the store before the call, distinct from the
    other two -- with the shape, element type and device of the source's
    corresponding buffer and with no written cell (nothing is copied). Every
    tensor that was in the store, the source's buffers included, is
    unchanged. *)
Theorem resize_as_sparse_csr_tensor_postcondition
    (w : World) (src : Source) (tc tp tv : ATen.Tensor) :
  has_symbolic_sizes_strides_ (this w) = false →
  is_compressed (layout_ (source_of src w)) = true →
  tensors w !! crow_indices_ (source_of src w) = Some tc →
  tensors w !! col_indices_ (source_of src w) = Some tp →
  tensors w !! values_ (source_of src w) = Some tv →
  ∃ w',
    resize_as_sparse_csr_tensor_ src w = (inr (), w') ∧
    layout_ (this w') = layout_ (source_of src w) ∧
    sizes_ (this w') = sizes_ (source_of src w) ∧
    fresh_like (tensors w) (tensors w') (crow_indices_ (this w')) tc ∧
    fresh_like (tensors w) (tensors w') (col_indices_ (this w')) tp ∧
    fresh_like (tensors w) (tensors w') (values_ (this w')) tv ∧
    NoDup [crow_indices_ (this w'); col_indices_ (this w'); values_ (this w')] ∧
    (∀ l t, tensors w !! l = Some t → tensors w' !! l = Some t).
Proof.
  intros Hsym Hlay Hc Hp Hv.
  set (s := source_of src w) in *.
  set (w1 := {| tensors := tensors w; this := with_layout (layout_ s) (this w) |}).
  assert (set_layout (layout_ s) w = (inr (), w1)) as Hset.
  { unfold set_layout. by destruct (layout_ s). }
  destruct (empty_like_run (crow_indices_ s) w1 tc Hc) as (l1 & Hr1 & Hf1).
  set (w2 := {| tensors := <[l1:=ATen.empty_like tc]> (tensors w);
                this := with_crow_indices l1 (this w1) |}).
  assert (tensors w2 !! col_indices_ s = Some tp) as Hp2.
  { cbn. rewrite lookup_insert_ne; [done|]. intros ->. cbn in Hf1. congruence. }
  destruct (empty_like_run (col_indices_ s) w2 tp Hp2) as (l2 & Hr2 & Hf2).
  set (w3 := {| tensors := <[l2:=ATen.empty_like tp]> (tensors w2);
                this := with_col_indices l2 (this w2) |}).
  assert (tensors w3 !! values_ s = Some tv) as Hv3.
  { cbn. assert (values_ s ≠ l2).
    { intros Heq. rewrite <- Heq in Hf2. cbn in Hf2.
      destruct (decide (l1 = values_ s)) as [->|Hne].
      - cbn in Hf1. congruence.
      - rewrite lookup_insert_ne in Hf2 by done. congruence. }
    assert (values_ s ≠ l1) by (intros Heq; rewrite <- Heq in Hf1; cbn in Hf1; congruence).
    by rewrite !lookup_insert_ne. }
  destruct (empty_like_run (values_ s) w3 tv Hv3) as (l3 & Hr3 & Hf3).
  cbn in Hf1, Hf2, Hf3.
  assert (l1 ≠ l2) as H12 by (intros ->; by rewrite lookup_insert_eq in Hf2).
  assert (l2 ≠ l3) as H23 by (intros ->; by rewrite lookup_insert_eq in Hf3).
  assert (l1 ≠ l3) as H13.
  { intros ->. rewrite lookup_insert_ne, lookup_insert_eq in Hf3; done. }
  rewrite lookup_insert_ne in Hf2 by done.
  rewrite !lookup_insert_ne in Hf3 by done.
  eexists. split.
  { unfold resize_as_sparse_csr_tensor_.
    run (check_not_symbolic_pass w Hsym).
    assert (src_field src layout_ w = (inr (layout_ s), w)) as Hs0 by by destruct src.
    run Hs0. run Hset.
    assert (src_field src crow_indices_ w1 = (inr (crow_indices_ s), w1)) as Hs1
        by by destruct src.
    run Hs1. run Hr1.
    unfold bind at 1. unfold update_this at 1, modify at 1. cbv beta iota.
    cbn [tensors this]. fold w2.
    assert (src_field src col_indices_ w2 = (inr (col_indices_ s), w2)) as Hs2
        by by destruct src.
    run Hs2. run Hr2.
    unfold bind at 1. unfold update_this at 1, modify at 1. cbv beta iota.
    cbn [tensors this]. fold w3.
    assert (src_field src values_ w3 = (inr (values_ s), w3)) as Hs3
        by by destruct src.
    run Hs3. run Hr3.
    unfold bind at 1. unfold update_this at 1, modify at 1. cbv beta iota.
    cbn [tensors this].
    match goal with
    | |- bind _ _ ?w4 = _ =>
        assert (src_field src sizes_ w4 = (inr (sizes_ s), w4)) as Hs4
            by by destruct src
    end.
    run Hs4.
    reflexivity. }
  cbn [this tensors layout_ sizes_ crow_indices_ col_indices_ values_
       with_numel with_sizes with_values with_col_indices with_crow_indices
       with_layout w3 w2 w1].
  repeat split.
  - done.
  - eexists. split; [by rewrite !lookup_insert_ne, lookup_insert_eq by done|].
    by repeat split.
  - done.
  - eexists. split; [by rewrite lookup_insert_ne, lookup_insert_eq by done|].
    by repeat split.
  - done.
  - eexists. split; [by rewrite lookup_insert_eq|]. by repeat split.
  - rewrite !NoDup_cons, !not_elem_of_cons, NoDup_nil.
    repeat split; try done; by intros ?%elem_of_nil.
  - intros l t Hl. rewrite !lookup_insert_ne; [done|congruence..].
Qed.

Lemma resize_as_sparse_csr_tensor_postcondition_witness :
  ∃ w',
    resize_as_sparse_csr_tensor_ SrcThis csr_2x4 = (inr (), w') ∧
    layout_ (this w') = kSparseCsr ∧
    sizes_ (this w') = [2; 4] ∧
    fresh_like (tensors csr_2x4) (tensors w') (crow_indices_ (this w'))
      (tensor_on cpu [3] Long [Some 0; Some 2; Some 5]) ∧
    fresh_like (tensors csr_2x4) (tensors w') (col_indices_ (this w'))
      (tensor_on cpu [5] Long [Some 0; Some 3; Some 0; Some 1; Some 2]) ∧
    fresh_like (tensors csr_2x4) (tensors w') (values_ (this w'))
      (tensor_on cpu [5] Float [Some 11; Some 12; Some 13; Some 14; Some 15]) ∧
    NoDup [crow_indices_ (this w'); col_indices_ (this w'); values_ (this w')] ∧
    (∀ l t, tensors csr_2x4 !! l = Some t → tensors w' !! l = Some t).
Proof.
  apply (resize_as_sparse_csr_tensor_postcondition csr_2x4 SrcThis); reflexivity.
Defined.

(** *** Dense tensors *)

Module ATenFacts.

Lemma numel_of_app a b :
  ATen.numel_of (a ++ b) = ATen.numel_of a * ATen.numel_of b.
Proof.
  unfold ATen.numel_of. induction a as [|x a IH]; cbn [app foldr].
  - destruct (foldr Z.mul 1 b); reflexivity.
  - rewrite IH. lia.
Qed.

Lemma numel_of_snoc a x : ATen.numel_of (a ++ [x]) = ATen.numel_of a * x.
Proof. rewrite numel_of_app. unfold ATen.numel_of. cbn. lia. Qed.

Lemma size_nonnegative_app a b :
  ATen.size_nonnegative (a ++ b) = true ↔
  ATen.size_nonnegative a = true ∧ ATen.size_nonnegative b = true.
Proof.
  unfold ATen.size_nonnegative. rewrite forallb_app. apply andb_true_iff.
Qed.

Lemma size_nonnegative_numel sz :
  ATen.size_nonnegative sz = true → 0 <= ATen.numel_of sz.
Proof.
  unfold ATen.size_nonnegative, ATen.numel_of.
  induction sz as [|x sz IH]; cbn [forallb foldr]; [lia|].
  intros [Hx%Z.leb_le Hsz]%andb_true_iff. specialize (IH Hsz).
  by apply Z.mul_nonneg_nonneg.
Qed.

(** What a successful [resize_] returns. *)
Lemma resize_ok t sz t' :
  ATen.resize_ t sz = inr t' →
  ATen.size_nonnegative sz = true ∧
  ATen.sizes t' = sz ∧
  ATen.scalar_type t' = ATen.scalar_type t ∧
  ATen.device t' = ATen.device t ∧
  ATen.storage t' = ATen.storage t ++
    replicate (Z.to_nat (ATen.numel_of sz) - length (ATen.storage t))%nat None ∧
  (Z.to_nat (ATen.numel t') ≤ length (ATen.storage t'))%nat.
Proof.
  unfold ATen.resize_. destruct (ATen.size_nonnegative sz); [|discriminate].
  intros [= <-]. unfold ATen.numel.
  cbn [ATen.sizes ATen.storage ATen.scalar_type ATen.device]. repeat split.
  rewrite length_app, length_replicate. lia.
Qed.

(** The cells of the storage that [resize_] keeps. *)
Lemma resize_keeps_cells t sz t' (k : nat) :
  ATen.resize_ t sz = inr t' →
  (k < length (ATen.storage t))%nat →
  ATen.storage t' !! k = ATen.storage t !! k.
Proof.
  intros (_ & _ & _ & _ & -> & _)%resize_ok Hk. by apply lookup_app_l.
Qed.

(** The flat position of entry [j] of batch [b]. *)
Lemma flat_position (b j : nat) (L : Z) :
  Z.of_nat j < L →
  Z.of_nat (b * Z.to_nat L + j) = Z.of_nat b * L + Z.of_nat j ∧
  Z.of_nat (b * Z.to_nat L + j) mod L = Z.of_nat j.
Proof.
  intros Hj. assert (Z.of_nat (b * Z.to_nat L + j) = Z.of_nat b * L + Z.of_nat j) as E by lia.
  split; [done|]. rewrite E.
  rewrite Z.add_comm, Z.mod_add by lia. apply Z.mod_small. lia.
Qed.

Lemma entry_fill_range_inside t r v (b j : nat) L :
  last (ATen.sizes t) = Some L →
  Z.of_nat j < L →
  Z.of_nat b * L + Z.of_nat j < ATen.numel t →
  (Z.to_nat (ATen.numel t) ≤ length (ATen.storage t))%nat →
  ATen.range_start r <= Z.of_nat j < ATen.range_start r + ATen.range_length r →
  ATen.entry (ATen.fill_range t r v) b j = Some (Some v).
Proof.
  intros HL Hj Hk Hlen Hr.
  destruct (flat_position b j L Hj) as [Epos Emod].
  unfold ATen.entry, ATen.fill_range. cbn [ATen.sizes ATen.storage]. rewrite HL.
  rewrite list_lookup_imap.
  destruct (ATen.storage t !! (b * Z.to_nat L + j)%nat) as [c|] eqn:Hc.
  - cbn. unfold ATen.in_range_last. rewrite HL, Emod, Epos.
    replace (Z.of_nat b * L + Z.of_nat j <? ATen.numel t) with true by lia.
    replace (ATen.range_start r <=? Z.of_nat j) with true by lia.
    replace (Z.of_nat j <? ATen.range_start r + ATen.range_length r) with true by lia.
    reflexivity.
  - apply lookup_ge_None in Hc. lia.
Qed.

Lemma entry_fill_range_outside t r v (b j : nat) L :
  last (ATen.sizes t) = Some L →
  Z.of_nat j < L →
  ¬ (ATen.range_start r <= Z.of_nat j < ATen.range_start r + ATen.range_length r) →
  ATen.entry (ATen.fill_range t r v) b j = ATen.entry t b j.
Proof.
  intros HL Hj Hr.
  destruct (flat_position b j L Hj) as [Epos Emod].
  unfold ATen.entry, ATen.fill_range. cbn [ATen.sizes ATen.storage]. rewrite HL.
  rewrite list_lookup_imap.
  destruct (ATen.storage t !! (b * Z.to_nat L + j)%nat) as [c|] eqn:Hc; [|done].
  cbn. unfold ATen.in_range_last. rewrite HL, Emod.
  destruct (ATen.range_start r <=? Z.of_nat j) eqn:E1;
    destruct (Z.of_nat j <? ATen.range_start r + ATen.range_length r) eqn:E2;
    rewrite ?andb_false_r; try done.
  exfalso. apply Hr. lia.
Qed.

(** After [zero_] every element is a written zero. *)
Lemma contents_zero_ t :
  (Z.to_nat (ATen.numel t) ≤ length (ATen.storage t))%nat →
  ATen.contents (ATen.zero_ t) = replicate (Z.to_nat (ATen.numel t)) (Some 0).
Proof.
  intros Hlen. unfold ATen.contents, ATen.zero_, ATen.numel.
  cbn [ATen.sizes ATen.storage]. fold (ATen.numel t).
  apply list_eq. intros k.
  destruct (decide (k < Z.to_nat (ATen.numel t))%nat) as [Hk|Hk].
  - rewrite lookup_take_lt, list_lookup_imap, lookup_replicate_2 by done.
    destruct (ATen.storage t !! k) as [c|] eqn:Hc.
    + cbn. by replace (Z.of_nat k <? ATen.numel t) with true by lia.
    + apply lookup_ge_None in Hc. lia.
  - rewrite lookup_take_ge by lia. symmetry. apply lookup_replicate_None. lia.
Qed.

End ATenFacts.

(** *** Stepping backwards through a successful run *)

Ltac inv_head_core H a Hh :=
  let s1 := fresh "s" in
  apply bind_ok in H as (a & s1 & Hh & H);
  first
    [ apply check_not_symbolic_ok in Hh as [Hh ->]
    | apply lift_result_ok in Hh as [Hh ->]
    | apply field_ok in Hh as [-> ->]
    | apply TORCH_CHECK_ok in Hh as [Hh ->]
    | idtac ].

(** [inv_head H as a Hh]: split the first step off the successful run [H],
    name its result [a] and what the step says [Hh]. *)
Tactic Notation "inv_head" hyp(H) "as" ident(a) ident(Hh) := inv_head_core H a Hh.

Lemma Tensor_size_last_ok l (h h' : Store) n :
  Tensor.size_last l h = (inr n, h') →
  ∃ t, h !! l = Some t ∧ ATen.size_last t = inr n ∧ h' = h.
Proof.
  unfold Tensor.size_last. intros H.
  apply bind_ok in H as (t & h1 & Hl & H). apply load_ok in Hl as [Hl ->].
  apply lift_result_ok in H as [H ->]. eauto.
Qed.

Lemma Tensor_sizes_ok l (h h' : Store) sz :
  Tensor.sizes l h = (inr sz, h') →
  ∃ t, h !! l = Some t ∧ sz = ATen.sizes t ∧ h' = h.
Proof.
  unfold Tensor.sizes. intros H.
  apply bind_ok in H as (t & h1 & Hl & H). apply load_ok in Hl as [Hl ->].
  apply ret_ok in H as [-> ->]. eauto.
Qed.

Lemma Tensor_dim_ok l (h h' : Store) d :
  Tensor.dim l h = (inr d, h') →
  ∃ t, h !! l = Some t ∧ d = ATen.dim t ∧ h' = h.
Proof.
  unfold Tensor.dim. intros H.
  apply bind_ok in H as (t & h1 & Hl & H). apply load_ok in Hl as [Hl ->].
  apply ret_ok in H as [-> ->]. eauto.
Qed.

Lemma size_last_ok t n : ATen.size_last t = inr n → last (ATen.sizes t) = Some n.
Proof. unfold ATen.size_last. destruct (last _); [by intros [= ->] | discriminate]. Qed.

Lemma crow_narrow_fill_ok start len x w w' u :
  (crow <- field crow_indices_;
   v <- on_store (Tensor.narrow_last crow start len);
   on_store (Tensor.fill_ v x)) w = (inr u, w') →
  ∃ t r,
    tensors w !! crow_indices_ (this w) = Some t ∧
    ATen.narrow_last t start len = inr r ∧
    w' = {| tensors := <[crow_indices_ (this w):=ATen.fill_range t r x]> (tensors w);
            this := this w |}.
Proof.
  intros H. inv_head H as crow Hf. inv_head H as v Hn.
  apply on_store_ok in Hn as (h & Hn & ->).
  apply on_store_ok in H as (h' & H & ->). cbn [tensors this] in *.
  pose proof (Tensor_fill_narrow_ok (crow_indices_ (this w)) start len x (tensors w) h' u)
    as Hboth.
  rewrite (bind_run _ _ _ _ _ Hn) in Hboth.
  destruct (Hboth H) as (t & r & ? & ? & ->). eauto.
Qed.

(** *** ArrayRef reads of a shape that ends in two structural axes *)

Module ArrayRefFacts.

Lemma at_rows (batch : list Z) rows cols :
  ArrayRef_at (batch ++ [rows; cols])
    (Z.of_nat (length (batch ++ [rows; cols])) - 2) = inr rows.
Proof.
  unfold ArrayRef_at. rewrite length_app. cbn [length].
  rewrite (proj2 (Z.leb_le _ _)) by lia.
  replace (Z.to_nat (Z.of_nat (length batch + 2) - 2)) with (length batch + 0)%nat by lia.
  by rewrite lookup_app_r, Nat.add_comm, Nat.add_sub by lia.
Qed.

Lemma at_cols (batch : list Z) rows cols :
  ArrayRef_at (batch ++ [rows; cols])
    (Z.of_nat (length (batch ++ [rows; cols])) - 1) = inr cols.
Proof.
  unfold ArrayRef_at. rewrite length_app. cbn [length].
  rewrite (proj2 (Z.leb_le _ _)) by lia.
  replace (Z.to_nat (Z.of_nat (length batch + 2) - 1)) with (length batch + 1)%nat by lia.
  by rewrite lookup_app_r, Nat.add_comm, Nat.add_sub by lia.
Qed.

Lemma slice_batch (batch : list Z) rows cols :
  ArrayRef_slice (batch ++ [rows; cols]) 0
    (Z.of_nat (length (batch ++ [rows; cols])) - 2) = inr batch.
Proof.
  unfold ArrayRef_slice. rewrite length_app. cbn [length].
  rewrite !(proj2 (Z.leb_le _ _)) by lia. cbn [andb].
  replace (Z.to_nat (Z.of_nat (length batch + 2) - 2)) with (length batch) by lia.
  change (Z.to_nat 0) with 0%nat. by rewrite drop_0, take_app_length.
Qed.

End ArrayRefFacts.

(** *** [resize_] *)

(** The trace of a successful [resize_]: the compressed-index buffer is
    resized and one range of its last axis is filled, then the plain-index
    and the values buffer are resized, then the shape is recorded. *)
Lemma resize_trace nnz (batch : list Z) rows cols w w' :
  resize_ nnz (batch ++ [rows; cols]) w = (inr (), w') →
  ∃ tc old tc1 r tp tp1 tv tv1,
    tensors w !! crow_indices_ (this w) = Some tc ∧
    last (ATen.sizes tc) = Some old ∧
    ATen.resize_ tc (batch ++ [Int64.add rows 1]) = inr tc1 ∧
    (if old <=? Int64.add rows 1
     then ATen.narrow_last tc1 old (Int64.sub (Int64.add rows 1) old) = inr r
     else ATen.narrow_last tc1 rows 1 = inr r) ∧
    let v := if old <=? Int64.add rows 1 then nnz
             else Z.min nnz (Int64.mul rows cols) in
    let h1 := <[crow_indices_ (this w):=ATen.fill_range tc1 r v]> (tensors w) in
    h1 !! col_indices_ (this w) = Some tp ∧
    ATen.resize_ tp (batch ++ [Z.min nnz (Int64.mul rows cols)]) = inr tp1 ∧
    let h2 := <[col_indices_ (this w):=tp1]> h1 in
    h2 !! values_ (this w) = Some tv ∧
    ATen.resize_ tv (batch ++ [Z.min nnz (Int64.mul rows cols)]) = inr tv1 ∧
    w' = {| tensors := <[values_ (this w):=tv1]> h2;
            this := with_sizes (batch ++ [rows; cols]) (this w) |}.
Proof.
  unfold resize_. intros H.
  inv_head H as u0 Hsym. inv_head H as rows' Hrows. inv_head H as cols' Hcols.
  rewrite ArrayRefFacts.at_rows in Hrows. injection Hrows as <-.
  rewrite ArrayRefFacts.at_cols in Hcols. injection Hcols as <-.
  inv_head H as crow Hf1. inv_head H as old Hold.
  apply on_store_ok in Hold as (h & Hold & ->).
  apply Tensor_size_last_ok in Hold as (tc & Hcrow & Hold%size_last_ok & ->).
  inv_head H as batch' Hbatch.
  rewrite ArrayRefFacts.slice_batch in Hbatch. injection Hbatch as <-.
  inv_head H as crow Hf2. inv_head H as u1 Hres.
  cbn [this tensors] in *.
  apply on_store_ok in Hres as (h & Hres & ->).
  apply Tensor_resize_ok in Hres as (tc0 & tc1 & Hcrow' & Hres & ->).
  cbn [this tensors] in *.
  assert (tc0 = tc) as -> by congruence.
  inv_head H as u2 Hfill.
  assert (∃ r,
    (if old <=? Int64.add rows 1
     then ATen.narrow_last tc1 old (Int64.sub (Int64.add rows 1) old) = inr r
     else ATen.narrow_last tc1 rows 1 = inr r) ∧
    s = {| tensors :=
             <[crow_indices_ (this w):=
                 ATen.fill_range tc1 r
                   (if old <=? Int64.add rows 1 then nnz
                    else Z.min nnz (Int64.mul rows cols))]> (tensors w);
           this := this w |}) as (r & Hnarrow & ->).
  { destruct (old <=? Int64.add rows 1);
      apply crow_narrow_fill_ok in Hfill as (t & r & Ht & Hn & ->);
      cbn [this tensors] in *; rewrite lookup_insert_eq in Ht;
      injection Ht as <-; exists r; by rewrite insert_insert_eq. }
  inv_head H as batch' Hbatch.
  rewrite ArrayRefFacts.slice_batch in Hbatch. injection Hbatch as <-.
  inv_head H as col Hf3. inv_head H as u3 Hcol.
  apply on_store_ok in Hcol as (h & Hcol & ->).
  apply Tensor_resize_ok in Hcol as (tp & tp1 & Hp & Hpres & ->).
  inv_head H as values Hf4. inv_head H as u4 Hval.
  apply on_store_ok in Hval as (h & Hval & ->).
  apply Tensor_resize_ok in Hval as (tv & tv1 & Hv & Hvres & ->).
  cbn [this tensors] in *.
  injection H as <-.
  exists tc, old, tc1, r, tp, tp1, tv, tv1. by repeat split.
Qed.

Module NarrowFacts.

Lemma wrap_above z :
  Int64.max_signed < z < Int64.modulus + Int64.half_modulus →
  Int64.wrap z = z - Int64.modulus.
Proof.
  unfold Int64.wrap, Int64.max_signed, Int64.modulus, Int64.half_modulus.
  intros Hz.
  rewrite <- (Z.mod_add _ (-1)) by lia.
  rewrite Z.mod_small; lia.
Qed.

(** The checks of [narrow_last], read off a successful call. *)
Lemma narrow_last_ok t start length r L :
  last (ATen.sizes t) = Some L →
  ATen.narrow_last t start length = inr r →
  0 <= length ∧ - L <= start <= L ∧
  ATen.range_start r = (if start <? 0 then start + L else start) ∧
  ATen.range_length r = length ∧
  ATen.range_start r <= L - length.
Proof.
  unfold ATen.narrow_last. intros ->.
  destruct (0 <=? length) eqn:E1; [|discriminate].
  destruct ((- L <=? start) && (start <=? L)) eqn:E2; [|discriminate].
  cbn [negb].
  destruct ((if start <? 0 then start + L else start) <=? L - length) eqn:E3;
    [|discriminate].
  cbn [negb]. intros [= <-]. cbn [ATen.range_start ATen.range_length].
  apply andb_true_iff in E2 as [E2a E2b]. lia.
Qed.

(** Shrinking: the view is the single last position [rows]. *)
Lemma narrow_last_shrink t rows r :
  last (ATen.sizes t) = Some (rows + 1) →
  0 <= rows + 1 →
  ATen.narrow_last t rows 1 = inr r →
  0 <= rows ∧ ATen.range_start r = rows ∧ ATen.range_length r = 1.
Proof.
  intros HL Hnn Hn.
  destruct (narrow_last_ok _ _ _ _ _ HL Hn) as (_ & Hs & Hstart & Hlen & Hfit).
  destruct (rows <? 0) eqn:E; lia.
Qed.

(** Growing: the view starts at the old length and runs to the end of the
    axis; a successful call shows that the old length was not negative. *)
Lemma narrow_last_grow t old L r :
  last (ATen.sizes t) = Some L →
  0 <= L → Int64.in_range L → old <= L →
  ATen.narrow_last t old (Int64.sub L old) = inr r →
  0 <= old ∧ ATen.range_start r = old ∧ ATen.range_length r = L - old.
Proof.
  intros HL Hnn Hr Hle Hn.
  destruct (narrow_last_ok _ _ _ _ _ HL Hn) as (Hlen0 & Hs & Hstart & Hlen & Hfit).
  unfold Int64.sub in *.
  destruct (decide (0 <= old)) as [Hold|Hold].
  - rewrite Int64Facts.wrap_id in *
      by (unfold Int64.in_range, Int64.min_signed, Int64.max_signed in *; lia).
    destruct (old <? 0) eqn:E; lia.
  - exfalso.
    destruct (decide (L - old <= Int64.max_signed)) as [Hsmall|Hbig].
    + rewrite Int64Facts.wrap_id in *
        by (unfold Int64.in_range, Int64.min_signed, Int64.max_signed in *; lia).
      destruct (old <? 0) eqn:E; lia.
    + assert (Int64.wrap (L - old) = L - old - Int64.modulus) as Hw.
      { apply wrap_above.
        unfold Int64.in_range, Int64.min_signed, Int64.max_signed,
          Int64.modulus, Int64.half_modulus in *. lia. }
      rewrite Hw in Hlen0.
      unfold Int64.in_range, Int64.min_signed, Int64.max_signed,
        Int64.modulus, Int64.half_modulus in *. lia.
Qed.

End NarrowFacts.

(** The compressed-index buffer after a successful [resize_] on an instance
    whose compressed-index buffer is not also its plain-index or values
    buffer: the resized buffer with one range of its last axis filled. *)
Lemma resize_crow_indices nnz (batch : list Z) rows cols w w' :
  Int64.in_range rows →
  crow_indices_ (this w) ≠ col_indices_ (this w) →
  crow_indices_ (this w) ≠ values_ (this w) →
  resize_ nnz (batch ++ [rows; cols]) w = (inr (), w') →
  ∃ tc old tc1 r,
    tensors w !! crow_indices_ (this w) = Some tc ∧
    last (ATen.sizes tc) = Some old ∧
    ATen.resize_ tc (batch ++ [rows + 1]) = inr tc1 ∧
    0 <= rows + 1 ∧
    (if old <=? rows + 1
     then 0 <= old ∧ ATen.range_start r = old ∧ ATen.range_length r = rows + 1 - old
     else 0 <= rows ∧ ATen.range_start r = rows ∧ ATen.range_length r = 1) ∧
    crow_indices_ (this w') = crow_indices_ (this w) ∧
    tensors w' !! crow_indices_ (this w) =
      Some (ATen.fill_range tc1 r
              (if old <=? rows + 1 then nnz else Z.min nnz (Int64.mul rows cols))).
Proof.
  intros Hrows Hcp Hcv Hrun.
  apply resize_trace in Hrun
    as (tc & old & tc1 & r & tp & tp1 & tv & tv1 & Hc & Hold & Hres & Hnarrow & Hrest).
  cbv zeta in Hrest. destruct Hrest as (_ & _ & _ & _ & ->).
  pose proof (ATenFacts.resize_ok _ _ _ Hres) as (Hnn & Hsz & _).
  apply ATenFacts.size_nonnegative_app in Hnn as [_ Hnn].
  unfold ATen.size_nonnegative in Hnn. cbn [forallb] in Hnn.
  rewrite andb_true_r in Hnn. apply Z.leb_le in Hnn.
  pose proof (Int64Facts.add_one_nonneg rows Hrows Hnn) as Hadd.
  rewrite Hadd in *.
  assert (last (ATen.sizes tc1) = Some (rows + 1)) as HL
      by (rewrite Hsz; apply last_snoc).
  exists tc, old, tc1, r. repeat split; try done.
  - destruct (old <=? rows + 1) eqn:E.
    + apply (NarrowFacts.narrow_last_grow tc1 old (rows + 1) r); try done; [|lia].
      unfold Int64.in_range, Int64.min_signed, Int64.max_signed in *.
      rewrite <- Hadd. apply Int64Facts.wrap_in_range.
    + by apply (NarrowFacts.narrow_last_shrink tc1 rows r).
  - cbn [tensors]. by rewrite !lookup_insert_ne, lookup_insert_eq by done.
Qed.

(** The claim that the last compressed index is [min(nnz, rows*cols)] after
    every [resize_] fails when the buffer grows: resizing the 2x4 matrix,
    whose compressed indices are [0,2,5], to 4x4 with [nnz = 50] returns, and
    the last entry is then 50, not [min(50, 16)]. *)
Lemma resize_growth_last_index_not_clamped :
  ¬ (∀ w' tc',
       resize_ 50 [4; 4] csr_2x4 = (inr (), w') →
       tensors w' !! crow_indices_ (this w') = Some tc' →
       ∀ b : nat, Z.of_nat b < ATen.batch_count tc' →
         ATen.entry tc' b 4 = Some (Some (Z.min 50 (4 * 4)))).
Proof.
  intros Hclaim.
  specialize (Hclaim (resize_ 50 [4; 4] csr_2x4).2
                (tensor_on cpu [5] Long [Some 0; Some 2; Some 5; Some 50; Some 50])).
  specialize (Hclaim eq_refl eq_refl 0%nat).
  vm_compute in Hclaim. specialize (Hclaim eq_refl). discriminate.
Qed.

(** C2 (amended). Let [resize_ nnz size] return on an instance whose
    compressed-index buffer is not shared with its other two buffers, with
    [rows] and [cols] the last two entries of [size]. The compressed-index
    buffer then has last-axis length [rows + 1], and in every batch its last
    entry is [min(nnz, rows*cols)] (the product in 64-bit arithmetic) if the
    buffer shrank, [rows + 1 < old], and is [nnz] itself if the buffer
    strictly grew, [old < rows + 1]. *)
Theorem resize_last_compressed_index
    (nnz : Z) (batch : list Z) (rows cols : Z) (w w' : World)
    (tc : ATen.Tensor) (old : Z) :
  Int64.in_range rows →
  crow_indices_ (this w) ≠ col_indices_ (this w) →
  crow_indices_ (this w) ≠ values_ (this w) →
  tensors w !! crow_indices_ (this w) = Some tc →
  last (ATen.sizes tc) = Some old →
  resize_ nnz (batch ++ [rows; cols]) w = (inr (), w') →
  ∃ tc',
    tensors w' !! crow_indices_ (this w') = Some tc' ∧
    ATen.sizes tc' = batch ++ [rows + 1] ∧
    ∀ b : nat, Z.of_nat b < ATen.batch_count tc' →
      (rows + 1 < old →
       ATen.entry tc' b (Z.to_nat rows)
         = Some (Some (Z.min nnz (Int64.mul rows cols)))) ∧
      (old < rows + 1 →
       ATen.entry tc' b (Z.to_nat rows) = Some (Some nnz)).
Proof.
  intros Hrows Hcp Hcv Hc Hold Hrun.
  destruct (resize_crow_indices _ _ _ _ _ _ Hrows Hcp Hcv Hrun)
    as (tc0 & old0 & tc1 & r & Hc0 & Hold0 & Hres & Hnn & Hrange & Hsame & Hcrow').
  assert (tc0 = tc) as -> by congruence.
  assert (old0 = old) as -> by congruence.
  pose proof (ATenFacts.resize_ok _ _ _ Hres) as (_ & Hsz & _ & _ & _ & Hlen).
  assert (last (ATen.sizes tc1) = Some (rows + 1)) as HL
      by (rewrite Hsz; apply last_snoc).
  assert (ATen.numel tc1 = ATen.numel_of batch * (rows + 1)) as Hnumel.
  { unfold ATen.numel. rewrite Hsz. apply ATenFacts.numel_of_snoc. }
  eexists. rewrite Hsame. split; [exact Hcrow'|].
  split; [exact Hsz|].
  intros b Hb.
  assert (Z.of_nat b < ATen.numel_of batch) as Hb'.
  { revert Hb. unfold ATen.batch_count, ATen.fill_range. cbn [ATen.sizes].
    by rewrite Hsz, removelast_last. }
  split; intros Hcase.
  - replace (old <=? rows + 1) with false in * by lia.
    destruct Hrange as (Hrows0 & Hstart & Hlength).
    apply (ATenFacts.entry_fill_range_inside tc1 r _ b (Z.to_nat rows) (rows + 1));
      [done | lia | rewrite Hnumel; nia | done | lia].
  - replace (old <=? rows + 1) with true in * by lia.
    destruct Hrange as (Hold0' & Hstart & Hlength).
    apply (ATenFacts.entry_fill_range_inside tc1 r _ b (Z.to_nat rows) (rows + 1));
      [done | lia | rewrite Hnumel; nia | done | lia].
Qed.

Lemma resize_last_compressed_index_witness :
  ∃ tc',
    tensors (resize_ 3 [1; 4] csr_2x4).2
      !! crow_indices_ (this (resize_ 3 [1; 4] csr_2x4).2) = Some tc' ∧
    ATen.sizes tc' = [] ++ [1 + 1] ∧
    ∀ b : nat, Z.of_nat b < ATen.batch_count tc' →
      (1 + 1 < 3 →
       ATen.entry tc' b (Z.to_nat 1) = Some (Some (Z.min 3 (Int64.mul 1 4)))) ∧
      (3 < 1 + 1 →
       ATen.entry tc' b (Z.to_nat 1) = Some (Some 3)).
Proof.
  apply (resize_last_compressed_index 3 [] 1 4 csr_2x4 (resize_ 3 [1; 4] csr_2x4).2
           (tensor_on cpu [3] Long [Some 0; Some 2; Some 5]) 3).
  - unfold Int64.in_range, Int64.min_signed, Int64.max_signed, Int64.half_modulus. lia.
  - discriminate.
  - discriminate.
  - reflexivity.
  - reflexivity.
  - reflexivity.
Defined.

(** Growth of a compressed-index buffer without batch dimensions: the
    entries that were there are kept and the appended ones hold [nnz]. *)
Lemma resize_grow_unbatched nnz rows cols w w' tc old :
  Int64.in_range rows →
  crow_indices_ (this w) ≠ col_indices_ (this w) →
  crow_indices_ (this w) ≠ values_ (this w) →
  tensors w !! crow_indices_ (this w) = Some tc →
  ATen.sizes tc = [old] →
  (Z.to_nat old ≤ length (ATen.storage tc))%nat →
  old <= rows + 1 →
  resize_ nnz [rows; cols] w = (inr (), w') →
  ∃ tc',
    tensors w' !! crow_indices_ (this w') = Some tc' ∧
    ATen.sizes tc' = [rows + 1] ∧
    ATen.contents tc' =
      ATen.contents tc ++ replicate (Z.to_nat (rows + 1 - old)) (Some nnz).
Proof.
  intros Hrows Hcp Hcv Hc Hsizes Hwf Hgrow Hrun.
  destruct (resize_crow_indices nnz [] rows cols w w' Hrows Hcp Hcv Hrun)
    as (tc0 & old0 & tc1 & r & Hc0 & Hold0 & Hres & Hnn & Hrange & Hsame & Hcrow').
  assert (tc0 = tc) as -> by congruence.
  assert (old0 = old) as -> by (rewrite Hsizes in Hold0; cbn in Hold0; congruence).
  replace (old <=? rows + 1) with true in * by lia.
  destruct Hrange as (Hold & Hstart & Hlength).
  pose proof (ATenFacts.resize_ok _ _ _ Hres) as (_ & Hsz & _ & _ & Hst & Hlen).
  cbn [app] in Hsz.
  assert (ATen.numel tc1 = rows + 1) as Hnumel1.
  { unfold ATen.numel, ATen.numel_of. rewrite Hsz. cbn. lia. }
  assert (ATen.numel tc = old) as Hnumel.
  { unfold ATen.numel, ATen.numel_of. rewrite Hsizes. cbn. lia. }
  eexists. rewrite Hsame. split; [exact Hcrow'|]. split; [exact Hsz|].
  unfold ATen.contents at 1 2, ATen.numel at 1. cbn [ATen.fill_range ATen.sizes ATen.storage].
  fold (ATen.numel tc1). rewrite Hnumel1, Hnumel.
  apply list_eq. intros k.
  assert (length (take (Z.to_nat old) (ATen.storage tc)) = Z.to_nat old) as Htake
      by (rewrite length_take; lia).
  destruct (decide (k < Z.to_nat (rows + 1))%nat) as [Hk|Hk].
  - rewrite lookup_take_lt, list_lookup_imap by done.
    destruct (ATen.storage tc1 !! k) as [c|] eqn:Hcell;
      [|apply lookup_ge_None in Hcell; lia].
    cbn [fmap option_fmap option_map]. unfold ATen.in_range_last.
    rewrite Hsz. cbn [last]. rewrite Hnumel1, Hstart, Hlength.
    rewrite Z.mod_small by lia.
    destruct (decide (k < Z.to_nat old)%nat) as [Hko|Hko].
    + rewrite lookup_app_l by lia. rewrite lookup_take_lt by done.
      rewrite <- (ATenFacts.resize_keeps_cells _ _ _ k Hres), Hcell by lia.
      replace (old <=? Z.of_nat k) with false by lia.
      by rewrite andb_false_r.
    + rewrite lookup_app_r by lia. rewrite Htake.
      rewrite lookup_replicate_2 by lia.
      replace (Z.of_nat k <? rows + 1) with true by lia.
      replace (old <=? Z.of_nat k) with true by lia.
      by replace (Z.of_nat k <? old + (rows + 1 - old)) with true by lia.
  - rewrite lookup_take_ge by lia. symmetry. apply lookup_ge_None.
    rewrite length_app, length_replicate, Htake. lia.
Qed.

(** C5. The batch of two 1x5 matrices with compressed indices
    [[0,2],[0,2]] is resized to two rows with [nnz = 2]; the compressed-index
    buffer grows from last-axis length 2 to 3. The call returns, and the
    entries that existed in the second batch are not preserved: its first
    entry, which was 0, now reads 2, and its second entry, which was 2, is a
    cell that was never written. The dense resize keeps the cells in
    row-major order, so with a longer last axis the old second row no longer
    lines up; the fill then overwrites the cell that held its first entry. *)
Theorem resize_grow_batched_scrambles :
  ∃ w' tc tc',
    resize_ 2 [2; 2; 5] batched_csr = (inr (), w') ∧
    tensors batched_csr !! crow_indices_ (this batched_csr) = Some tc ∧
    tensors w' !! crow_indices_ (this w') = Some tc' ∧
    ATen.sizes tc = [2; 2] ∧
    ATen.contents tc = [Some 0; Some 2; Some 0; Some 2] ∧
    ATen.sizes tc' = [2; 3] ∧
    ATen.contents tc' = [Some 0; Some 2; Some 2; Some 2; None; Some 2] ∧
    ATen.entry tc 1 0 = Some (Some 0) ∧
    ATen.entry tc' 1 0 = Some (Some 2) ∧
    ATen.entry tc 1 1 = Some (Some 2) ∧
    ATen.entry tc' 1 1 = Some None.
Proof.
  eexists _, _, _.
  split; [vm_compute; reflexivity|].
  split; [vm_compute; reflexivity|].
  split; [vm_compute; reflexivity|].
  by vm_compute.
Qed.

Module ShapeFacts.

(** A shape with at least [sparse_dim >= 2] axes splits into batch axes, the
    two structural axes and a dense tail. *)
Lemma split_shape (sparse_dim : Z) (size : list Z) :
  2 <= sparse_dim → sparse_dim <= Z.of_nat (length size) →
  ∃ batch rows cols dense,
    size = batch ++ [rows; cols] ++ dense ∧
    Z.of_nat (length batch) = sparse_dim - 2.
Proof.
  intros Hsd Hlen.
  set (n := Z.to_nat (sparse_dim - 2)).
  assert (Z.of_nat n = sparse_dim - 2) as Hn by lia. clearbody n.
  pose proof (take_drop n size) as Hsplit.
  assert (length (drop n size) = (length size - n)%nat) as Hdrop by apply length_drop.
  destruct (drop n size) as [|rows [|cols dense]] eqn:E; cbn [length] in Hdrop; try lia.
  exists (take n size), rows, cols, dense. split; [done|].
  rewrite length_take, Nat.min_l by lia. lia.
Qed.

Section Decomposed.

Context (batch : list Z) (rows cols : Z) (dense : list Z).

Let size := batch ++ [rows; cols] ++ dense.
Let bd := Z.of_nat (length batch).

Lemma slice_batchsize : ArrayRef_slice size 0 bd = inr batch.
Proof.
  unfold ArrayRef_slice, size, bd. rewrite length_app.
  rewrite !(proj2 (Z.leb_le _ _)) by lia. cbn [andb].
  change (Z.to_nat 0) with 0%nat. rewrite drop_0, Nat2Z.id.
  by rewrite take_app_length.
Qed.

Lemma slice_densesize :
  ArrayRef_slice size (bd + 2) (Z.of_nat (length size) - bd - 2) = inr dense.
Proof.
  unfold ArrayRef_slice, size, bd. rewrite !length_app. cbn [length].
  rewrite !(proj2 (Z.leb_le _ _)) by lia. cbn [andb].
  replace (Z.to_nat (Z.of_nat (length batch) + 2)) with (length batch + 2)%nat by lia.
  rewrite <- drop_drop, drop_app_length.
  change (drop 2 ([rows; cols] ++ dense)) with dense.
  rewrite take_ge; [done|]. lia.
Qed.

Lemma at_structural_rows : ArrayRef_at size bd = inr rows.
Proof.
  unfold ArrayRef_at, size, bd. rewrite (proj2 (Z.leb_le _ _)) by lia.
  rewrite Nat2Z.id. cbn [app]. by rewrite list_lookup_middle.
Qed.

Lemma at_structural_cols : ArrayRef_at size (bd + 1) = inr cols.
Proof.
  unfold ArrayRef_at, size, bd. rewrite (proj2 (Z.leb_le _ _)) by lia.
  replace (Z.to_nat (Z.of_nat (length batch) + 1)) with (length batch + 1)%nat by lia.
  rewrite lookup_app_r by lia.
  by replace (length batch + 1 - length batch)%nat with 1%nat by lia.
Qed.

End Decomposed.

(** Reading the block shape off the values buffer. *)
Lemma slice_blocksize tc tv blocksize :
  ArrayRef_slice (ATen.sizes tv) (ATen.dim tc - 1 + 1) 2 = inr blocksize →
  ∃ block_rows block_cols,
    blocksize = [block_rows; block_cols] ∧
    block_shape tc tv = Some (block_rows, block_cols).
Proof.
  unfold ArrayRef_slice, block_shape, ATen.dim.
  destruct ((0 <=? Z.of_nat (length (ATen.sizes tc)) - 1 + 1) && (0 <=? 2)
            && (Z.of_nat (length (ATen.sizes tc)) - 1 + 1 + 2
                <=? Z.of_nat (length (ATen.sizes tv)))) eqn:E; [|discriminate].
  intros [= <-].
  replace (Z.to_nat (Z.of_nat (length (ATen.sizes tc)) - 1 + 1))
    with (length (ATen.sizes tc)) by lia.
  assert (length (drop (length (ATen.sizes tc)) (ATen.sizes tv)) ≥ 2)%nat as Hlen
      by (rewrite length_drop; lia).
  destruct (drop (length (ATen.sizes tc)) (ATen.sizes tv)) as [|br [|bc rest]];
    cbn [length] in Hlen; try lia.
  by exists br, bc.
Qed.

End ShapeFacts.

(** *** [resize_and_clear_] *)

Lemma batch_dim_ok w d w' :
  batch_dim w = (inr d, w') →
  ∃ tc, tensors w !! crow_indices_ (this w) = Some tc ∧ d = ATen.dim tc - 1 ∧ w' = w.
Proof.
  unfold batch_dim. intros H.
  inv_head H as crow Hf. inv_head H as d' Hd.
  apply on_store_ok in Hd as (h & Hd & ->).
  apply Tensor_dim_ok in Hd as (tc & Hc & -> & ->).
  apply ret_ok in H as [-> ->]. exists tc. by destruct w.
Qed.

(** The block branch of the layout dispatch: it reads the block shape off the
    current values buffer, appends it to the new values shape and divides the
    group count by one block edge. *)
Lemma block_action_ok (the_layout : Layout) (values_size : list Z) (n : Z)
    w vn w' tc tv :
  tensors w !! crow_indices_ (this w) = Some tc →
  tensors w !! values_ (this w) = Some tv →
  (values <- field values_;
   values_sizes <- on_store (Tensor.sizes values);
   bd <- batch_dim;
   blocksize <- lift_result (ArrayRef_slice values_sizes (bd + 1) 2);
   edge <- lift_result
     (ArrayRef_at blocksize (if bool_decide (the_layout = kSparseBsr) then 0 else 1));
   n' <- lift_result (int64_divide n edge);
   ret (values_size ++ blocksize, n')) w = (inr vn, w') →
  ∃ block_rows block_cols,
    block_shape tc tv = Some (block_rows, block_cols) ∧
    vn = (values_size ++ [block_rows; block_cols],
          Int64.div n (if bool_decide (the_layout = kSparseBsr)
                       then block_rows else block_cols)) ∧
    w' = w.
Proof.
  intros Hc Hv H.
  inv_head H as values Hf. inv_head H as values_sizes Hs.
  apply on_store_ok in Hs as (h & Hs & ->).
  apply Tensor_sizes_ok in Hs as (tv0 & Hv0 & -> & ->).
  assert (tv0 = tv) as -> by congruence.
  inv_head H as bd Hbd.
  apply batch_dim_ok in Hbd as (tc0 & Hc0 & -> & ->). cbn [tensors this] in *.
  assert (tc0 = tc) as -> by congruence.
  inv_head H as blocksize Hblock.
  apply ShapeFacts.slice_blocksize in Hblock as (br & bc & -> & Hshape).
  inv_head H as edge Hedge. inv_head H as n' Hdiv.
  apply ret_ok in H as [-> ->].
  exists br, bc. split; [done|]. split; [|by destruct w].
  unfold int64_divide in Hdiv. destruct (edge =? 0); [discriminate|].
  injection Hdiv as <-.
  destruct (bool_decide (the_layout = kSparseBsr)); cbn in Hedge; by injection Hedge as <-.
Qed.

(** The trace of a successful [resize_and_clear_]. *)
Lemma resize_and_clear_trace sparse_dim (batch : list Z) rows cols dense w w' tc tv :
  Z.of_nat (length batch) = sparse_dim - 2 →
  tensors w !! crow_indices_ (this w) = Some tc →
  tensors w !! values_ (this w) = Some tv →
  resize_and_clear_ sparse_dim (batch ++ [rows; cols] ++ dense) w = (inr (), w') →
  ∃ groups tail tc1 tp tp1 tv' tv1,
    compressed_groups (layout_ (this w)) rows cols (block_shape tc tv) = Some groups ∧
    values_tail (layout_ (this w)) dense (block_shape tc tv) = Some tail ∧
    ATen.resize_ tc (batch ++ [Int64.add groups 1]) = inr tc1 ∧
    let h1 := <[crow_indices_ (this w):=ATen.zero_ tc1]> (tensors w) in
    h1 !! col_indices_ (this w) = Some tp ∧
    ATen.resize_ tp (batch ++ [0]) = inr tp1 ∧
    let h2 := <[col_indices_ (this w):=tp1]> h1 in
    h2 !! values_ (this w) = Some tv' ∧
    ATen.resize_ tv' (batch ++ [0] ++ tail) = inr tv1 ∧
    w' = {| tensors := <[values_ (this w):=tv1]> h2;
            this := with_numel
                      (foldr Int64.mul 1 (batch ++ [rows; cols] ++ dense))
                      (with_sizes (batch ++ [rows; cols] ++ dense) (this w)) |}.
Proof.
  intros Hbd Hc Hv H. unfold resize_and_clear_ in H.
  inv_head H as u0 Hsym. inv_head H as u1 Hsd. inv_head H as u2 Hlen.
  replace (sparse_dim - 2) with (Z.of_nat (length batch)) in H by lia.
  rewrite ShapeFacts.slice_batchsize, ShapeFacts.slice_densesize,
    ShapeFacts.at_structural_rows, ShapeFacts.at_structural_cols in H.
  inv_head H as batchsize Hb. injection Hb as <-.
  inv_head H as densesize Hd. injection Hd as <-.
  inv_head H as layout Hl. inv_head H as n Hn. inv_head H as layout' Hl'.
  inv_head H as vn Hvn.
  assert (∃ groups tail,
    compressed_groups (layout_ (this w)) rows cols (block_shape tc tv) = Some groups ∧
    values_tail (layout_ (this w)) dense (block_shape tc tv) = Some tail ∧
    vn = (batch ++ [0] ++ tail, groups) ∧ s0 = w) as (groups & tail & Hg & Ht & -> & ->).
  { destruct (layout_ (this w)) eqn:Hlayout; cbn in Hn; try discriminate;
      injection Hn as <- <-; rewrite Hlayout in Hvn;
      cbn [AT_DISPATCH_PLAIN_SPARSE_COMPRESSED_LAYOUTS] in Hvn.
    - injection Hvn as <- <-. by eexists _, _.
    - injection Hvn as <- <-. by eexists _, _.
    - apply (block_action_ok _ _ _ _ _ _ tc tv Hc Hv) in Hvn as (br & bc & Hshape & -> & ->).
      rewrite Hshape. cbn. eexists _, _. by rewrite <- !app_assoc.
    - apply (block_action_ok _ _ _ _ _ _ tc tv Hc Hv) in Hvn as (br & bc & Hshape & -> & ->).
      rewrite Hshape. cbn. eexists _, _. by rewrite <- !app_assoc. }
  cbn [fst snd] in H.
  inv_head H as crow Hf1. inv_head H as u3 Hres.
  apply on_store_ok in Hres as (h & Hres & ->).
  apply Tensor_resize_ok in Hres as (tc0 & tc1 & Hc0 & Hres & ->).
  assert (tc0 = tc) as -> by congruence.
  inv_head H as crow Hf2. inv_head H as u4 Hzero.
  apply on_store_ok in Hzero as (h & Hzero & ->).
  apply Tensor_zero_ok in Hzero as (tz & Hz & ->).
  cbn [tensors this] in *. rewrite lookup_insert_eq in Hz. injection Hz as <-.
  rewrite insert_insert_eq in H.
  inv_head H as col Hf3. inv_head H as u5 Hcol.
  apply on_store_ok in Hcol as (h & Hcol & ->).
  apply Tensor_resize_ok in Hcol as (tp & tp1 & Hp & Hpres & ->).
  inv_head H as values Hf4. inv_head H as u6 Hval.
  apply on_store_ok in Hval as (h & Hval & ->).
  apply Tensor_resize_ok in Hval as (tv' & tv1 & Hv' & Hvres & ->).
  cbn [tensors this] in *.
  inv_head H as u7 Hset.
  unfold set_sizes, update_this, modify in Hset. injection Hset as _ <-.
  unfold refresh_numel, update_this, modify in H. injection H as <-.
  exists groups, tail, tc1, tp, tp1, tv', tv1. by repeat split.
Qed.

Lemma compressed_groups_in_range layout rows cols block groups :
  Int64.in_range rows → Int64.in_range cols →
  compressed_groups layout rows cols block = Some groups →
  Int64.in_range groups.
Proof.
  intros Hr Hc. unfold compressed_groups.
  destruct layout, block as [[br bc]|]; intros [= <-];
    try done; apply Int64Facts.wrap_in_range.
Qed.

Lemma contents_no_elements t : ATen.numel t = 0 → ATen.contents t = [].
Proof. unfold ATen.contents. by intros ->. Qed.

(** The three buffers after a successful [resize_and_clear_] on an instance
    whose buffers are three different tensors. *)
Lemma resize_and_clear_buffers sparse_dim (batch : list Z) rows cols dense w w' tc tv :
  Int64.in_range rows → Int64.in_range cols →
  NoDup [crow_indices_ (this w); col_indices_ (this w); values_ (this w)] →
  Z.of_nat (length batch) = sparse_dim - 2 →
  tensors w !! crow_indices_ (this w) = Some tc →
  tensors w !! values_ (this w) = Some tv →
  resize_and_clear_ sparse_dim (batch ++ [rows; cols] ++ dense) w = (inr (), w') →
  ∃ groups tail tc' tp' tv',
    compressed_groups (layout_ (this w)) rows cols (block_shape tc tv) = Some groups ∧
    values_tail (layout_ (this w)) dense (block_shape tc tv) = Some tail ∧
    tensors w' !! crow_indices_ (this w') = Some tc' ∧
    tensors w' !! col_indices_ (this w') = Some tp' ∧
    tensors w' !! values_ (this w') = Some tv' ∧
    ATen.sizes tc' = batch ++ [groups + 1] ∧
    ATen.contents tc' = replicate (Z.to_nat (ATen.numel tc')) (Some 0) ∧
    ATen.sizes tp' = batch ++ [0] ∧
    ATen.sizes tv' = batch ++ [0] ++ tail.
Proof.
  intros Hrows Hcols Hdistinct Hbd Hc Hv Hrun.
  rewrite !NoDup_cons, !not_elem_of_cons in Hdistinct.
  destruct Hdistinct as ((Hcp & Hcv & _) & (Hpv & _) & _).
  apply (resize_and_clear_trace _ _ _ _ _ _ _ tc tv Hbd Hc Hv) in Hrun
    as (groups & tail & tc1 & tp & tp1 & tv0 & tv1 & Hg & Ht & Hres & Hrest).
  cbv zeta in Hrest. destruct Hrest as (Hp & Hpres & Hv0 & Hvres & ->).
  pose proof (compressed_groups_in_range _ _ _ _ _ Hrows Hcols Hg) as Hgr.
  pose proof (ATenFacts.resize_ok _ _ _ Hres) as (Hnn & Hsz & _ & _ & _ & Hlen).
  apply ATenFacts.size_nonnegative_app in Hnn as [_ Hnn].
  unfold ATen.size_nonnegative in Hnn. cbn [forallb] in Hnn.
  rewrite andb_true_r in Hnn. apply Z.leb_le in Hnn.
  rewrite (Int64Facts.add_one_nonneg groups Hgr Hnn) in *.
  pose proof (ATenFacts.resize_ok _ _ _ Hpres) as (_ & Hpsz & _).
  pose proof (ATenFacts.resize_ok _ _ _ Hvres) as (_ & Hvsz & _).
  exists groups, tail, (ATen.zero_ tc1), tp1, tv1.
  cbn [tensors this crow_indices_ col_indices_ values_ with_numel with_sizes].
  repeat split; try done.
  - by rewrite !lookup_insert_ne, lookup_insert_eq by congruence.
  - by rewrite lookup_insert_ne, lookup_insert_eq by congruence.
  - by rewrite lookup_insert_eq.
  - exact (ATenFacts.contents_zero_ tc1 Hlen).
Qed.

(** C3. Let [resize_and_clear_ sparse_dim size] return on an instance whose
    three buffers are different tensors, [size] holding 64-bit integers.
    Then [size] is a batch shape, two structural axes [rows] and [cols] and a
    dense tail, with [sparse_dim - 2] batch axes; the plain-index and the
    values buffer have an entries axis of length 0 and no element, and the
    compressed-index buffer has the shape [batch ++ [groups + 1]] and every
    element of it is a written zero. Here [groups] is [rows] for CSR, [cols]
    for CSC, [rows] divided by the row edge of the block for BSR and [cols]
    divided by the column edge of the block for BSC, the block being the one
    the values buffer held before the call. Nothing is assumed about what
    the buffers held. *)
Theorem resize_and_clear_postcondition
    (sparse_dim : Z) (size : list Z) (w w' : World) (tc tv : ATen.Tensor) :
  Forall Int64.in_range size →
  NoDup [crow_indices_ (this w); col_indices_ (this w); values_ (this w)] →
  tensors w !! crow_indices_ (this w) = Some tc →
  tensors w !! values_ (this w) = Some tv →
  resize_and_clear_ sparse_dim size w = (inr (), w') →
  ∃ batch rows cols dense groups tc' tp' tv',
    size = batch ++ [rows; cols] ++ dense ∧
    Z.of_nat (length batch) = sparse_dim - 2 ∧
    compressed_groups (layout_ (this w)) rows cols (block_shape tc tv) = Some groups ∧
    tensors w' !! crow_indices_ (this w') = Some tc' ∧
    tensors w' !! col_indices_ (this w') = Some tp' ∧
    tensors w' !! values_ (this w') = Some tv' ∧
    ATen.sizes tc' = batch ++ [groups + 1] ∧
    ATen.contents tc' = replicate (Z.to_nat (ATen.numel tc')) (Some 0) ∧
    ATen.sizes tp' = batch ++ [0] ∧
    ATen.contents tp' = [] ∧
    (∃ tail, ATen.sizes tv' = batch ++ [0] ++ tail) ∧
    ATen.contents tv' = [].
Proof.
  intros Hsize Hdistinct Hc Hv Hrun.
  assert (2 <= sparse_dim ∧ sparse_dim <= Z.of_nat (length size)) as [Hsd Hlen].
  { pose proof Hrun as H. unfold resize_and_clear_ in H.
    inv_head H as u0 Hsym. inv_head H as u1 H1. inv_head H as u2 H2. lia. }
  destruct (ShapeFacts.split_shape sparse_dim size Hsd Hlen)
    as (batch & rows & cols & dense & -> & Hbd).
  assert (Int64.in_range rows ∧ Int64.in_range cols) as [Hrows Hcols].
  { rewrite Forall_app in Hsize. destruct Hsize as [_ Hs].
    cbn [app] in Hs. rewrite !Forall_cons in Hs. tauto. }
  destruct (resize_and_clear_buffers _ _ _ _ _ _ _ _ _
              Hrows Hcols Hdistinct Hbd Hc Hv Hrun)
    as (groups & tail & tc' & tp' & tv' & Hg & Ht & Hc' & Hp' & Hv' & Hcsz & Hzero
        & Hpsz & Hvsz).
  exists batch, rows, cols, dense, groups, tc', tp', tv'.
  repeat split; try done.
  - apply contents_no_elements. unfold ATen.numel.
    rewrite Hpsz, ATenFacts.numel_of_snoc. lia.
  - by exists tail.
  - apply contents_no_elements. unfold ATen.numel.
    rewrite Hvsz, ATenFacts.numel_of_app. cbn [app]. unfold ATen.numel_of at 2.
    cbn [foldr]. lia.
Qed.

Lemma resize_and_clear_postcondition_witness :
  ∃ batch rows cols dense groups tc' tp' tv',
    [5; 5] = batch ++ [rows; cols] ++ dense ∧
    Z.of_nat (length batch) = 2 - 2 ∧
    compressed_groups (layout_ (this bsr_4x4)) rows cols
      (block_shape (tensor_on cpu [3] Long [Some 0; Some 1; Some 2])
                   (tensor_on cpu [2; 2; 2] Float (replicate 8 (Some 9))))
      = Some groups ∧
    tensors (resize_and_clear_ 2 [5; 5] bsr_4x4).2
      !! crow_indices_ (this (resize_and_clear_ 2 [5; 5] bsr_4x4).2) = Some tc' ∧
    tensors (resize_and_clear_ 2 [5; 5] bsr_4x4).2
      !! col_indices_ (this (resize_and_clear_ 2 [5; 5] bsr_4x4).2) = Some tp' ∧
    tensors (resize_and_clear_ 2 [5; 5] bsr_4x4).2
      !! values_ (this (resize_and_clear_ 2 [5; 5] bsr_4x4).2) = Some tv' ∧
    ATen.sizes tc' = batch ++ [groups + 1] ∧
    ATen.contents tc' = replicate (Z.to_nat (ATen.numel tc')) (Some 0) ∧
    ATen.sizes tp' = batch ++ [0] ∧
    ATen.contents tp' = [] ∧
    (∃ tail, ATen.sizes tv' = batch ++ [0] ++ tail) ∧
    ATen.contents tv' = [].
Proof.
  apply (resize_and_clear_postcondition 2 [5; 5] bsr_4x4
           (resize_and_clear_ 2 [5; 5] bsr_4x4).2).
  - repeat constructor;
      unfold Int64.in_range, Int64.min_signed, Int64.max_signed, Int64.half_modulus;
      lia.
  - by apply (bool_decide_unpack _).
  - reflexivity.
  - reflexivity.
  - reflexivity.
Defined.

(** The scenario of the specification: clearing a BSR instance with 2x2
    blocks to the shape [5,5] gives values of shape [0,2,2] and three zero
    compressed indices. *)
Example resize_and_clear_bsr_scenario :
  ∃ w' tc' tv',
    resize_and_clear_ 2 [5; 5] bsr_4x4 = (inr (), w') ∧
    tensors w' !! crow_indices_ (this w') = Some tc' ∧
    tensors w' !! values_ (this w') = Some tv' ∧
    ATen.sizes tc' = [3] ∧
    ATen.contents tc' = [Some 0; Some 0; Some 0] ∧
    ATen.sizes tv' = [0; 2; 2].
Proof.
  eexists _, _, _.
  split; [vm_compute; reflexivity|].
  split; [vm_compute; reflexivity|].
  split; [vm_compute; reflexivity|].
  by vm_compute.
Qed.

(** The values shape that [resize_and_clear_] produces on a block layout:
    the batch shape, the empty entries axis, the dense tail, and only then
    the block shape. *)
Lemma resize_and_clear_block_values_shape
    sparse_dim (batch : list Z) rows cols dense w w' tc tv block_rows block_cols :
  Int64.in_range rows → Int64.in_range cols →
  NoDup [crow_indices_ (this w); col_indices_ (this w); values_ (this w)] →
  Z.of_nat (length batch) = sparse_dim - 2 →
  layout_ (this w) = kSparseBsr ∨ layout_ (this w) = kSparseBsc →
  tensors w !! crow_indices_ (this w) = Some tc →
  tensors w !! values_ (this w) = Some tv →
  block_shape tc tv = Some (block_rows, block_cols) →
  resize_and_clear_ sparse_dim (batch ++ [rows; cols] ++ dense) w = (inr (), w') →
  ∃ tv',
    tensors w' !! values_ (this w') = Some tv' ∧
    ATen.sizes tv' = batch ++ [0] ++ dense ++ [block_rows; block_cols].
Proof.
  intros Hrows Hcols Hdistinct Hbd Hlayout Hc Hv Hblock Hrun.
  destruct (resize_and_clear_buffers _ _ _ _ _ _ _ _ _
              Hrows Hcols Hdistinct Hbd Hc Hv Hrun)
    as (groups & tail & tc' & tp' & tv' & Hg & Ht & Hc' & Hp' & Hv' & Hcsz & Hzero
        & Hpsz & Hvsz).
  exists tv'. split; [done|]. rewrite Hvsz.
  rewrite Hblock in Ht. by destruct Hlayout as [Hl|Hl]; rewrite Hl in Ht; injection Ht as <-.
Qed.

(** C6. The 4x6 BSR instance holds one block of shape 2x3. Clearing it to
    the shape [4,6,7] -- two structural axes and a dense tail of one axis of
    length 7 -- returns, and the new values buffer has the shape [0,7,2,3]:
    the block shape comes after the dense tail, not before it as in
    [0,2,3,7]. Read back the way [resize_and_clear_] itself reads the block
    shape, the new buffer shows the block [7,2]. *)
Theorem resize_and_clear_block_after_dense_tail :
  ∃ w' tc tv tc' tv',
    resize_and_clear_ 2 [4; 6; 7] bsr_4x6 = (inr (), w') ∧
    tensors bsr_4x6 !! crow_indices_ (this bsr_4x6) = Some tc ∧
    tensors bsr_4x6 !! values_ (this bsr_4x6) = Some tv ∧
    block_shape tc tv = Some (2, 3) ∧
    tensors w' !! crow_indices_ (this w') = Some tc' ∧
    tensors w' !! values_ (this w') = Some tv' ∧
    ATen.sizes tv' = [0; 7; 2; 3] ∧
    ATen.sizes tv' ≠ [] ++ [0] ++ [2; 3] ++ [7] ∧
    block_shape tc' tv' = Some (7, 2).
Proof.
  eexists _, _, _, _, _.
  split; [vm_compute; reflexivity|].
  split; [vm_compute; reflexivity|].
  split; [vm_compute; reflexivity|].
  split; [vm_compute; reflexivity|].
  split; [vm_compute; reflexivity|].
  split; [vm_compute; reflexivity|].
  by vm_compute.
Qed.

(** ** Further properties *)

(** *** Relations that every outcome keeps *)

Section Keeps.

Context {S : Type} (R : S → S → Prop) `{!Reflexive R} `{!Transitive R}.

Lemma keeps_ret {A} (a : A) : keeps R (ret a).
Proof. intros s r s' [= _ <-]. reflexivity. Qed.

Lemma keeps_throw {A} (e : Error) : keeps R (throw (A:=A) e).
Proof. intros s r s' [= _ <-]. reflexivity. Qed.

Lemma keeps_gets {A} (f : S → A) : keeps R (gets f).
Proof. intros s r s' [= _ <-]. reflexivity. Qed.

Lemma keeps_lift_result {A} (r : Error + A) : keeps R (lift_result r).
Proof. destruct r; [apply keeps_throw | apply keeps_ret]. Qed.

Lemma keeps_TORCH_CHECK cond e : keeps R (TORCH_CHECK cond e).
Proof. destruct cond; [apply keeps_ret | apply keeps_throw]. Qed.

Lemma keeps_bind {A B} (m : M S A) (f : A → M S B) :
  keeps R m → (∀ a, keeps R (f a)) → keeps R (bind m f).
Proof.
  intros Hm Hf s r s'. unfold bind.
  destruct (m s) as [[e|a] s1] eqn:E.
  - intros [= <- <-]. by eapply Hm.
  - intros Hrun. etrans; [by eapply Hm | by eapply Hf].
Qed.

End Keeps.

#[local] Instance same_tags_refl : Reflexive same_tags.
Proof. by intros h l. Qed.

#[local] Instance same_tags_trans : Transitive same_tags.
Proof. intros h1 h2 h3 H12 H23 l. by rewrite H23, H12. Qed.

#[local] Instance store_extends_refl : Reflexive store_extends.
Proof. by intros h l t. Qed.

#[local] Instance store_extends_trans : Transitive store_extends.
Proof. intros h1 h2 h3 H12 H23 l t Hl. by apply H23, H12. Qed.

#[local] Instance same_members_refl : Reflexive same_members.
Proof. by intros s. Qed.

#[local] Instance same_members_trans : Transitive same_members.
Proof.
  intros s1 s2 s3 (?&?&?&?&?&?) (?&?&?&?&?&?). repeat split; congruence.
Qed.

#[local] Instance buffers_in_place_refl : Reflexive buffers_in_place.
Proof. by intros w. Qed.

#[local] Instance buffers_in_place_trans : Transitive buffers_in_place.
Proof. intros w1 w2 w3 [? ?] [? ?]. split; by etrans. Qed.

Lemma same_tags_insert (h : Store) l t t' :
  h !! l = Some t → tags t' = tags t → same_tags h (<[l:=t']> h).
Proof.
  intros Hl Ht l'. destruct (decide (l = l')) as [<-|Hne].
  - by rewrite lookup_insert_eq, Hl; cbn; rewrite Ht.
  - by rewrite lookup_insert_ne.
Qed.

Lemma keeps_load (R : relation (gmap positive ATen.Tensor)) `{!Reflexive R} l :
  keeps R (load l).
Proof.
  intros h r h'. unfold load. destruct (h !! l); intros [= _ <-]; reflexivity.
Qed.

Lemma keeps_Tensor_resize_ l sz : keeps same_tags (Tensor.resize_ l sz).
Proof.
  intros h r h'. unfold Tensor.resize_, bind, load.
  destruct (h !! l) as [t|] eqn:Hl; [|by intros [= _ <-]].
  unfold ATen.resize_. destruct (ATen.size_nonnegative sz); cbn.
  - intros [= _ <-]. by eapply same_tags_insert.
  - by intros [= _ <-].
Qed.

Lemma keeps_Tensor_zero_ l : keeps same_tags (Tensor.zero_ l).
Proof.
  intros h r h'. unfold Tensor.zero_, bind, load.
  destruct (h !! l) as [t|] eqn:Hl; [|by intros [= _ <-]].
  cbn. intros [= _ <-]. by eapply same_tags_insert.
Qed.

Lemma keeps_Tensor_fill_ v x : keeps same_tags (Tensor.fill_ v x).
Proof.
  intros h r h'. unfold Tensor.fill_, bind, load.
  destruct (h !! Tensor.base v) as [t|] eqn:Hl; [|by intros [= _ <-]].
  cbn. intros [= _ <-]. by eapply same_tags_insert.
Qed.

Lemma keeps_new_tensor t : keeps store_extends (new_tensor t).
Proof.
  intros h r h' Hrun. destruct r as [e|l]; [discriminate|].
  apply new_tensor_ok in Hrun as [Hfresh ->].
  intros l' t' Hl'. rewrite lookup_insert_ne; [done | congruence].
Qed.

(** Lifting to the world: the instance is not touched by a store
    operation. *)
Lemma keeps_on_store {A} (m : M (gmap positive ATen.Tensor) A) :
  keeps same_tags m → keeps buffers_in_place (on_store m).
Proof.
  intros Hm w r w'. unfold on_store.
  destruct (m (tensors w)) as [r' h] eqn:E. intros [= _ <-].
  split; [by eapply Hm | done].
Qed.

Lemma keeps_update_this f :
  (∀ s, same_members s (f s)) → keeps buffers_in_place (update_this f).
Proof. intros Hf w r w' [= _ <-]. split; [done | apply Hf]. Qed.

Lemma keeps_field (R : relation World) `{!Reflexive R} {A}
    (f : SparseCsrTensorImpl → A) :
  keeps R (field f).
Proof. apply keeps_gets; done. Qed.

(** Reading a tag or a shape of a tensor changes no store. *)
Lemma keeps_reads (R : relation (gmap positive ATen.Tensor))
    `{!Reflexive R} `{!Transitive R} l :
  keeps R (Tensor.sizes l) ∧ keeps R (Tensor.dim l) ∧
  keeps R (Tensor.device l) ∧ keeps R (Tensor.scalar_type l) ∧
  keeps R (Tensor.size_last l) ∧
  (∀ start len, keeps R (Tensor.narrow_last l start len)).
Proof.
  repeat split; intros;
    repeat (first [ apply keeps_load; apply _
                  | apply keeps_ret; apply _
                  | apply keeps_lift_result; apply _
                  | apply keeps_bind; try apply _; [|intros ?] ]).
Qed.

#[local] Instance store_unchanged_refl : Reflexive store_unchanged.
Proof. by intros w. Qed.

#[local] Instance store_unchanged_trans : Transitive store_unchanged.
Proof. unfold store_unchanged. intros w1 w2 w3 H12 H23. congruence. Qed.

#[local] Instance world_extends_refl : Reflexive world_extends.
Proof. intros w. unfold world_extends. reflexivity. Qed.

#[local] Instance world_extends_trans : Transitive world_extends.
Proof. unfold world_extends. intros w1 w2 w3 H12 H23. by etrans. Qed.

Lemma keeps_on_store_read {A} (m : M (gmap positive ATen.Tensor) A) :
  keeps eq m → keeps store_unchanged (on_store m).
Proof.
  intros Hm w r w'. unfold on_store.
  destruct (m (tensors w)) as [r' h] eqn:E. intros [= _ <-].
  unfold store_unchanged. cbn. symmetry. by eapply Hm.
Qed.

Lemma keeps_on_store_extends {A} (m : M (gmap positive ATen.Tensor) A) :
  keeps store_extends m → keeps world_extends (on_store m).
Proof.
  intros Hm w r w'. unfold on_store.
  destruct (m (tensors w)) as [r' h] eqn:E. intros [= _ <-].
  unfold world_extends. cbn. by eapply Hm.
Qed.

Lemma keeps_update_this_store (R : relation World) f :
  (∀ w, R w {| tensors := tensors w; this := f (this w) |}) →
  keeps R (update_this f).
Proof. intros Hf w r w' [= _ <-]. apply Hf. Qed.

Lemma keeps_Tensor_empty_like l : keeps store_extends (Tensor.empty_like l).
Proof.
  unfold Tensor.empty_like. apply keeps_bind; try apply _.
  - apply keeps_load; apply _.
  - intros t. apply keeps_new_tensor.
Qed.

(** [keeps_steps]: walk through a sequence of steps, each of which keeps the
    relation. *)
Ltac keeps_steps :=
  repeat first
    [ apply keeps_ret; apply _
    | apply keeps_throw; apply _
    | apply keeps_lift_result; apply _
    | apply keeps_TORCH_CHECK; apply _
    | apply keeps_field; apply _
    | apply keeps_update_this; intros ?; by repeat split
    | apply keeps_update_this_store; intros ?;
      unfold world_extends, store_unchanged; cbn [tensors]; reflexivity
    | apply keeps_on_store; first
        [ apply keeps_Tensor_resize_ | apply keeps_Tensor_zero_
        | apply keeps_Tensor_fill_ | apply keeps_reads; apply _ ]
    | apply keeps_on_store_read; apply keeps_reads; apply _
    | apply keeps_on_store_extends; apply keeps_Tensor_empty_like
    | match goal with
      | |- keeps _ (if ?c then _ else _) => destruct c
      | |- keeps _ (AT_DISPATCH_ROW_SPARSE_COMPRESSED_LAYOUTS ?l _ _) =>
          destruct l; cbn [AT_DISPATCH_ROW_SPARSE_COMPRESSED_LAYOUTS]
      | |- keeps _ (AT_DISPATCH_PLAIN_SPARSE_COMPRESSED_LAYOUTS ?l _ _) =>
          destruct l; cbn [AT_DISPATCH_PLAIN_SPARSE_COMPRESSED_LAYOUTS]
      | |- keeps _ (set_layout ?l) => destruct l; cbn [set_layout]
      | |- keeps _ (src_field ?src _) => destruct src; cbn [src_field]
      end
    | apply keeps_bind; try apply _; [|intros ?] ].

Lemma resize_keeps nnz size : keeps buffers_in_place (resize_ nnz size).
Proof.
  unfold resize_, check_not_symbolic, set_sizes. cbv zeta. keeps_steps.
Qed.

Lemma resize_and_clear_keeps sparse_dim size :
  keeps buffers_in_place (resize_and_clear_ sparse_dim size).
Proof.
  unfold resize_and_clear_, check_not_symbolic, set_sizes, refresh_numel, batch_dim.
  cbv zeta. keeps_steps.
Qed.

Lemma set_member_tensors_keeps crow_indices col_indices values size :
  keeps store_unchanged (set_member_tensors crow_indices col_indices values size).
Proof.
  unfold set_member_tensors, check_not_symbolic, set_sizes, refresh_numel.
  keeps_steps.
Qed.

Lemma resize_as_sparse_csr_tensor_keeps src :
  keeps world_extends (resize_as_sparse_csr_tensor_ src).
Proof.
  unfold resize_as_sparse_csr_tensor_, check_not_symbolic, set_sizes, refresh_numel.
  keeps_steps.
Qed.

Lemma same_tags_lookup (h h' : gmap positive ATen.Tensor) l t :
  same_tags h h' → h !! l = Some t →
  ∃ t', h' !! l = Some t' ∧ ATen.device t' = ATen.device t ∧
        ATen.scalar_type t' = ATen.scalar_type t.
Proof.
  intros Hsame Hl. specialize (Hsame l). rewrite Hl in Hsame.
  destruct (h' !! l) as [t'|]; [|discriminate].
  injection Hsame as Hd Hs. eauto.
Qed.

Lemma buffers_in_place_invariants w w' :
  buffers_in_place w w' →
  (devices_agree (tensors w) (this w) → devices_agree (tensors w') (this w')) ∧
  (values_typed (tensors w) (this w) → values_typed (tensors w') (this w')).
Proof.
  intros [Htags (Hc & Hp & Hv & _ & Hdt & _)]. split.
  - intros (tc & tp & tv & Hlc & Hlp & Hlv & Hdc & Hdp).
    destruct (same_tags_lookup _ _ _ _ Htags Hlc) as (tc' & ? & ? & _).
    destruct (same_tags_lookup _ _ _ _ Htags Hlp) as (tp' & ? & ? & _).
    destruct (same_tags_lookup _ _ _ _ Htags Hlv) as (tv' & ? & ? & _).
    exists tc', tp', tv'. rewrite Hc, Hp, Hv. repeat split; congruence.
  - intros (tv & Hlv & Hty).
    destruct (same_tags_lookup _ _ _ _ Htags Hlv) as (tv' & ? & _ & ?).
    exists tv'. rewrite Hv, Hdt. split; congruence.
Qed.

(** *** What the mutating methods never touch *)

(** X1. Whatever [set_member_tensors] returns or raises, the store of dense
    tensors is exactly as before: the method adopts handles and copies,
    resizes or writes no buffer. *)
Theorem set_member_tensors_never_writes_store
    (crow_indices col_indices values : positive) (size : list Z) (w : World) :
  tensors (set_member_tensors crow_indices col_indices values size w).2 = tensors w.
Proof.
  destruct (set_member_tensors crow_indices col_indices values size w) as [r w'] eqn:E.
  exact (set_member_tensors_keeps _ _ _ _ _ _ _ E).
Qed.

(** X2. Whatever [resize_] and [resize_and_clear_] return or raise, the
    instance still names the same three buffers with the same layout and
    element type, and the store holds the same tensors, each on the device
    and with the element type it had: the two methods allocate nothing,
    release nothing and move nothing. *)
Theorem resize_methods_keep_buffers_in_place (w : World) :
  (∀ nnz size, buffers_in_place w (resize_ nnz size w).2) ∧
  (∀ sparse_dim size, buffers_in_place w (resize_and_clear_ sparse_dim size w).2).
Proof.
  split; intros.
  - destruct (resize_ nnz size w) as [r w'] eqn:E.
    exact (resize_keeps _ _ _ _ _ E).
  - destruct (resize_and_clear_ sparse_dim size w) as [r w'] eqn:E.
    exact (resize_and_clear_keeps _ _ _ _ _ E).
Qed.

(** X3. Whatever [resize_as_sparse_csr_tensor_] returns or raises, every
    tensor that was in the store before the call -- the buffers of the
    source and the old buffers of the instance among them -- is in the store
    afterwards exactly as it was. *)
Theorem resize_as_sparse_csr_tensor_writes_no_existing_tensor
    (src : Source) (w : World) :
  store_extends (tensors w) (tensors (resize_as_sparse_csr_tensor_ src w).2).
Proof.
  destruct (resize_as_sparse_csr_tensor_ src w) as [r w'] eqn:E.
  exact (resize_as_sparse_csr_tensor_keeps _ _ _ _ E).
Qed.

(** X4. The two cross-field invariants survive [resize_] and
    [resize_and_clear_], whether the call returns or raises: if the three
    buffers sat on one device before, they do afterwards, and if the values
    had the element type of the instance, they still have it. *)
Theorem resize_methods_keep_invariants (w : World) :
  devices_agree (tensors w) (this w) →
  values_typed (tensors w) (this w) →
  (∀ nnz size,
     devices_agree (tensors (resize_ nnz size w).2) (this (resize_ nnz size w).2) ∧
     values_typed (tensors (resize_ nnz size w).2) (this (resize_ nnz size w).2)) ∧
  (∀ sparse_dim size,
     devices_agree (tensors (resize_and_clear_ sparse_dim size w).2)
       (this (resize_and_clear_ sparse_dim size w).2) ∧
     values_typed (tensors (resize_and_clear_ sparse_dim size w).2)
       (this (resize_and_clear_ sparse_dim size w).2)).
Proof.
  intros Hdev Hty. split; intros.
  - destruct (resize_ nnz size w) as [r w'] eqn:E.
    destruct (buffers_in_place_invariants w w' (resize_keeps _ _ _ _ _ E)); auto.
  - destruct (resize_and_clear_ sparse_dim size w) as [r w'] eqn:E.
    destruct (buffers_in_place_invariants w w' (resize_and_clear_keeps _ _ _ _ _ E));
      auto.
Qed.

Lemma resize_methods_keep_invariants_witness :
  (∀ nnz size,
     devices_agree (tensors (resize_ nnz size csr_2x4).2)
       (this (resize_ nnz size csr_2x4).2) ∧
     values_typed (tensors (resize_ nnz size csr_2x4).2)
       (this (resize_ nnz size csr_2x4).2)) ∧
  (∀ sparse_dim size,
     devices_agree (tensors (resize_and_clear_ sparse_dim size csr_2x4).2)
       (this (resize_and_clear_ sparse_dim size csr_2x4).2) ∧
     values_typed (tensors (resize_and_clear_ sparse_dim size csr_2x4).2)
       (this (resize_and_clear_ sparse_dim size csr_2x4).2)).
Proof.
  apply (resize_methods_keep_invariants csr_2x4).
  - eexists _, _, _. repeat split; reflexivity.
  - eexists. split; reflexivity.
Defined.

Lemma on_store_run {A} (m : M (gmap positive ATen.Tensor) A) w a h :
  m (tensors w) = (inr a, h) →
  on_store m w = (inr a, {| tensors := h; this := this w |}).
Proof. unfold on_store. by intros ->. Qed.

Lemma Tensor_scalar_type_run l (h : gmap positive ATen.Tensor) t :
  h !! l = Some t → Tensor.scalar_type l h = (inr (ATen.scalar_type t), h).
Proof.
  intros H. unfold Tensor.scalar_type.
  by rewrite (bind_run _ _ _ _ _ (load_run _ _ _ H)).
Qed.

Lemma bind_field {A B} (f : SparseCsrTensorImpl → A) (k : A → M World B) w :
  bind (field f) k w = k (f (this w)) w.
Proof. reflexivity. Qed.

Lemma bind_update_this {B} f (k : unit → M World B) w :
  bind (update_this f) k w = k () {| tensors := tensors w; this := f (this w) |}.
Proof. reflexivity. Qed.

(** [run_pure]: take a head step that reads or updates the instance only. *)
Ltac run_pure :=
  first [ rewrite bind_field | rewrite bind_update_this ];
  cbv beta; cbn [tensors this].

(** *** Construction and member replacement *)

(** X5. Empty construction for a dispatch key set that names neither sparse
    compressed backend raises [InvalidDeviceTag] before anything is
    allocated: the store is as it was. *)
Theorem empty_construction_invalid_device_tag
    (base_sizes : list Z) (base_numel : Z) (key_set : DispatchKeySet)
    (layout : Layout) (data_type : ScalarType) (h : gmap positive ATen.Tensor) :
  has key_set SparseCsrCPU = false →
  has key_set SparseCsrCUDA = false →
  SparseCsrTensorImpl_empty base_sizes base_numel key_set layout data_type h
    = (inl InvalidDeviceTag, h).
Proof.
  intros Hcpu Hcuda. unfold SparseCsrTensorImpl_empty.
  apply bind_raise. apply SparseCsrTensorSetToDeviceType_raise.
  by rewrite Hcpu, Hcuda.
Qed.

Lemma empty_construction_invalid_device_tag_witness :
  SparseCsrTensorImpl_empty [0] 0 [CPU; SparseCUDA] kSparseCsr Float csr_2x4_store
    = (inl InvalidDeviceTag, csr_2x4_store).
Proof.
  apply empty_construction_invalid_device_tag; reflexivity.
Defined.



(** X7. On a concrete-shape instance, [set_member_tensors] with three
    buffers of the store returns exactly when the values have the element
    type of the instance and sit on the device of both index buffers. When it
    returns, the instance names exactly the three given buffers, carries the
    given shape and the layout it had, and both cross-field invariants
    hold. *)
Theorem set_member_tensors_returns
    (crow_indices col_indices values : positive) (size : list Z) (w : World)
    (tc tp tv : ATen.Tensor) :
  has_symbolic_sizes_strides_ (this w) = false →
  tensors w !! crow_indices = Some tc →
  tensors w !! col_indices = Some tp →
  tensors w !! values = Some tv →
  ∃ r w',
    set_member_tensors crow_indices col_indices values size w = (r, w') ∧
    (r = inr () ↔
     ATen.scalar_type tv = typeMetaToScalarType (data_type_ (this w)) ∧
     ATen.device tv = ATen.device tc ∧
     ATen.device tv = ATen.device tp) ∧
    (r = inr () →
     crow_indices_ (this w') = crow_indices ∧
     col_indices_ (this w') = col_indices ∧
     values_ (this w') = values ∧
     sizes_ (this w') = size ∧
     layout_ (this w') = layout_ (this w) ∧
     data_type_ (this w') = data_type_ (this w) ∧
     devices_agree (tensors w') (this w') ∧
     values_typed (tensors w') (this w')).
Proof.
  intros Hsym Hc Hp Hv. destruct w as [h s]. cbn [tensors this] in *.
  unfold set_member_tensors, set_sizes, refresh_numel.
  run (check_not_symbolic_pass {| tensors := h; this := s |} Hsym).
  run (on_store_run _ {| tensors := h; this := s |} _ _
         (Tensor_scalar_type_run _ _ _ Hv)).
  cbn [tensors this]. run_pure.
  destruct (decide (ATen.scalar_type tv = typeMetaToScalarType (data_type_ s)))
    as [Hty|Hty]; cycle 1.
  { eexists _, _. split.
    { apply bind_raise. unfold TORCH_CHECK. by rewrite bool_decide_eq_false_2. }
    split; [split; [discriminate | tauto] | discriminate]. }
  run (TORCH_CHECK_run (S:=World) _ TypeMismatch {| tensors := h; this := s |}
         (bool_decide_eq_true_2 _ Hty)).
  do 5 run_pure. cbn [tensors this].
  run_pure.
  match goal with
  | |- context [bind (on_store (Tensor.device _)) _ ?w1] => set (w1' := w1)
  end.
  run (on_store_run _ w1' _ _ (Tensor_device_run _ _ _ Hv)).
  cbn [tensors this w1']. run_pure.
  run (on_store_run _ w1' _ _ (Tensor_device_run _ _ _ Hc)).
  destruct (decide (ATen.device tv = ATen.device tc)) as [Hdc|Hdc]; cycle 1.
  { eexists _, _. split.
    { apply bind_raise. unfold TORCH_CHECK. by rewrite bool_decide_eq_false_2. }
    split; [split; [discriminate | tauto] | discriminate]. }
  run (TORCH_CHECK_run (S:=World) _ DeviceMismatch w1' (bool_decide_eq_true_2 _ Hdc)).
  run_pure.
  run (on_store_run _ w1' _ _ (Tensor_device_run _ _ _ Hv)).
  cbn [tensors this w1']. run_pure.
  run (on_store_run _ w1' _ _ (Tensor_device_run _ _ _ Hp)).
  destruct (decide (ATen.device tv = ATen.device tp)) as [Hdp|Hdp]; cycle 1.
  { eexists _, _. split.
    { unfold TORCH_CHECK. by rewrite bool_decide_eq_false_2. }
    split; [split; [discriminate | tauto] | discriminate]. }
  eexists _, _. split.
  { unfold TORCH_CHECK. by rewrite bool_decide_eq_true_2. }
  split; [tauto|]. intros _. cbn.
  repeat split.
  - by exists tc, tp, tv.
  - by exists tv.
Qed.

Lemma set_member_tensors_returns_witness :
  ∃ r w',
    set_member_tensors 4%positive 5%positive 3%positive [2; 2] csr_2x4_with_candidates
      = (r, w') ∧
    (r = inr () ↔
     Float = typeMetaToScalarType (data_type_ (this csr_2x4_with_candidates)) ∧
     cpu = cpu ∧ cpu = cpu) ∧
    (r = inr () →
     crow_indices_ (this w') = 4%positive ∧
     col_indices_ (this w') = 5%positive ∧
     values_ (this w') = 3%positive ∧
     sizes_ (this w') = [2; 2] ∧
     layout_ (this w') = layout_ (this csr_2x4_with_candidates) ∧
     data_type_ (this w') = data_type_ (this csr_2x4_with_candidates) ∧
     devices_agree (tensors w') (this w') ∧
     values_typed (tensors w') (this w')).
Proof.
  apply (set_member_tensors_returns 4%positive 5%positive 3%positive [2; 2]
           csr_2x4_with_candidates
           (tensor_on cpu [3] Long [Some 0; Some 1; Some 2])
           (tensor_on cpu [2] Long [Some 0; Some 1])
           (tensor_on cpu [5] Float [Some 11; Some 12; Some 13; Some 14; Some 15]));
    reflexivity.
Defined.

(** *** Running the dense tensor steps forwards *)

Lemma Tensor_resize_run l sz (h : gmap positive ATen.Tensor) t t' :
  h !! l = Some t → ATen.resize_ t sz = inr t' →
  Tensor.resize_ l sz h = (inr (), <[l:=t']> h).
Proof.
  intros Hl Hr. unfold Tensor.resize_.
  run (load_run _ _ _ Hl). by rewrite Hr.
Qed.

Lemma Tensor_size_last_run l (h : gmap positive ATen.Tensor) t n :
  h !! l = Some t → last (ATen.sizes t) = Some n →
  Tensor.size_last l h = (inr n, h).
Proof.
  intros Hl Hn. unfold Tensor.size_last.
  run (load_run _ _ _ Hl). unfold ATen.size_last. by rewrite Hn.
Qed.

Lemma Tensor_sizes_run l (h : gmap positive ATen.Tensor) t :
  h !! l = Some t → Tensor.sizes l h = (inr (ATen.sizes t), h).
Proof. intros Hl. unfold Tensor.sizes. by run (load_run _ _ _ Hl). Qed.

Lemma Tensor_dim_run l (h : gmap positive ATen.Tensor) t :
  h !! l = Some t → Tensor.dim l h = (inr (ATen.dim t), h).
Proof. intros Hl. unfold Tensor.dim. by run (load_run _ _ _ Hl). Qed.

Lemma Tensor_zero_run l (h : gmap positive ATen.Tensor) t :
  h !! l = Some t → Tensor.zero_ l h = (inr (), <[l:=ATen.zero_ t]> h).
Proof. intros Hl. unfold Tensor.zero_. by run (load_run _ _ _ Hl). Qed.

Lemma Tensor_narrow_fill_run l start len x (h : gmap positive ATen.Tensor) t r :
  h !! l = Some t → ATen.narrow_last t start len = inr r →
  bind (Tensor.narrow_last l start len) (λ v, Tensor.fill_ v x) h
    = (inr (), <[l:=ATen.fill_range t r x]> h).
Proof.
  intros Hl Hn.
  assert (Tensor.narrow_last l start len h
          = (inr {| Tensor.base := l; Tensor.range := r |}, h)) as Hv.
  { unfold Tensor.narrow_last. run (load_run _ _ _ Hl). by rewrite Hn. }
  run Hv. unfold Tensor.fill_. cbn [Tensor.base Tensor.range].
  by run (load_run _ _ _ Hl).
Qed.

Lemma crow_narrow_fill_run start len x w t r :
  tensors w !! crow_indices_ (this w) = Some t →
  ATen.narrow_last t start len = inr r →
  (crow <- field crow_indices_;
   v <- on_store (Tensor.narrow_last crow start len);
   on_store (Tensor.fill_ v x)) w
  = (inr (), {| tensors := <[crow_indices_ (this w):=ATen.fill_range t r x]> (tensors w);
                this := this w |}).
Proof.
  intros Hl Hn. rewrite bind_field. cbv beta.
  pose proof (Tensor_narrow_fill_run _ _ _ x _ _ _ Hl Hn) as Hboth.
  unfold bind in Hboth |- *. unfold on_store.
  destruct (Tensor.narrow_last (crow_indices_ (this w)) start len (tensors w))
    as [[e|v] h1]; [discriminate|].
  cbn [tensors this]. by rewrite Hboth.
Qed.

(** *** [resize_], forwards *)

(** The converse of [resize_trace]: the steps of [resize_] run through when
    each dense operation does. *)
Lemma resize_run nnz (batch : list Z) rows cols w tc old tc1 r tp tp1 tv tv1 :
  has_symbolic_sizes_strides_ (this w) = false →
  tensors w !! crow_indices_ (this w) = Some tc →
  last (ATen.sizes tc) = Some old →
  ATen.resize_ tc (batch ++ [Int64.add rows 1]) = inr tc1 →
  (if old <=? Int64.add rows 1
   then ATen.narrow_last tc1 old (Int64.sub (Int64.add rows 1) old) = inr r
   else ATen.narrow_last tc1 rows 1 = inr r) →
  let v := if old <=? Int64.add rows 1 then nnz
           else Z.min nnz (Int64.mul rows cols) in
  let h1 := <[crow_indices_ (this w):=ATen.fill_range tc1 r v]> (tensors w) in
  h1 !! col_indices_ (this w) = Some tp →
  ATen.resize_ tp (batch ++ [Z.min nnz (Int64.mul rows cols)]) = inr tp1 →
  let h2 := <[col_indices_ (this w):=tp1]> h1 in
  h2 !! values_ (this w) = Some tv →
  ATen.resize_ tv (batch ++ [Z.min nnz (Int64.mul rows cols)]) = inr tv1 →
  resize_ nnz (batch ++ [rows; cols]) w
  = (inr (), {| tensors := <[values_ (this w):=tv1]> h2;
                this := with_sizes (batch ++ [rows; cols]) (this w) |}).
Proof.
  intros Hsym Hc Hold Hres Hnarrow v h1 Hp Hpres h2 Hv Hvres.
  destruct w as [h s]. cbn [tensors this] in *.
  unfold resize_, set_sizes.
  run (check_not_symbolic_pass {| tensors := h; this := s |} Hsym).
  rewrite ArrayRefFacts.at_rows, ArrayRefFacts.at_cols, ArrayRefFacts.slice_batch.
  cbn [lift_result]. rewrite (bind_run _ _ _ _ _ (eq_refl : ret rows _ = _)). cbv beta.
  rewrite (bind_run _ _ _ _ _ (eq_refl : ret cols _ = _)). cbv beta.
  run_pure.
  run (on_store_run _ {| tensors := h; this := s |} _ _
         (Tensor_size_last_run _ _ _ _ Hc Hold)).
  cbn [tensors this].
  rewrite (bind_run _ _ _ _ _ (eq_refl : ret batch _ = _)). cbv beta.
  run_pure.
  run (on_store_run _ {| tensors := h; this := s |} _ _
         (Tensor_resize_run _ _ _ _ _ Hc Hres)).
  cbn [tensors this].
  assert ((if old <=? Int64.add rows 1
           then
             crow <- field crow_indices_;
             v0 <- on_store (Tensor.narrow_last crow old
                               (Int64.sub (Int64.add rows 1) old));
             on_store (Tensor.fill_ v0 nnz)
           else
             crow <- field crow_indices_;
             v0 <- on_store (Tensor.narrow_last crow rows 1);
             on_store (Tensor.fill_ v0 (Z.min nnz (Int64.mul rows cols))))
            {| tensors := <[crow_indices_ s:=tc1]> h; this := s |}
          = (inr (), {| tensors := h1; this := s |})) as Hfill.
  { subst h1 v. destruct (old <=? Int64.add rows 1);
      rewrite (crow_narrow_fill_run _ _ _ _ tc1 r) by
        (try done; cbn [tensors this]; apply lookup_insert_eq);
      cbn [tensors this]; by rewrite insert_insert_eq. }
  run Hfill.
  rewrite (bind_run _ _ _ _ _ (eq_refl : ret batch _ = _)). cbv beta.
  run_pure.
  run (on_store_run _ {| tensors := h1; this := s |} _ _
         (Tensor_resize_run _ _ _ _ _ Hp Hpres)).
  cbn [tensors this]. run_pure.
  run (on_store_run _ {| tensors := h2; this := s |} _ _
         (Tensor_resize_run _ _ _ _ _ Hv Hvres)).
  reflexivity.
Qed.

Lemma resize_nonnegative t sz :
  ATen.size_nonnegative sz = true → ∃ t', ATen.resize_ t sz = inr t'.
Proof. unfold ATen.resize_. intros ->. by eexists. Qed.

Lemma size_nonnegative_snoc batch x :
  ATen.size_nonnegative batch = true → 0 <= x →
  ATen.size_nonnegative (batch ++ [x]) = true.
Proof.
  intros Hb Hx. apply ATenFacts.size_nonnegative_app. split; [done|].
  unfold ATen.size_nonnegative. cbn [forallb]. by rewrite (proj2 (Z.leb_le _ _)).
Qed.

Lemma narrow_last_grow_run t old L :
  last (ATen.sizes t) = Some L → 0 <= old <= L → Int64.in_range L →
  ATen.narrow_last t old (Int64.sub L old)
  = inr {| ATen.range_start := old; ATen.range_length := L - old |}.
Proof.
  intros HL Hold Hr. unfold Int64.sub.
  rewrite Int64Facts.wrap_id
    by (unfold Int64.in_range, Int64.min_signed, Int64.max_signed in *; lia).
  unfold ATen.narrow_last. rewrite HL.
  rewrite (proj2 (Z.leb_le 0 (L - old))) by lia.
  rewrite (proj2 (Z.leb_le (- L) old)) by lia.
  rewrite (proj2 (Z.leb_le old L)) by lia.
  rewrite (proj2 (Z.ltb_ge old 0)) by lia.
  by rewrite (proj2 (Z.leb_le old (L - (L - old)))) by lia.
Qed.

Lemma narrow_last_shrink_run t rows :
  last (ATen.sizes t) = Some (rows + 1) → 0 <= rows →
  ATen.narrow_last t rows 1
  = inr {| ATen.range_start := rows; ATen.range_length := 1 |}.
Proof.
  intros HL Hrows. unfold ATen.narrow_last. rewrite HL.
  rewrite (proj2 (Z.leb_le 0 1)) by lia.
  rewrite (proj2 (Z.leb_le (- (rows + 1)) rows)) by lia.
  rewrite (proj2 (Z.leb_le rows (rows + 1))) by lia.
  rewrite (proj2 (Z.ltb_ge rows 0)) by lia.
  by rewrite (proj2 (Z.leb_le rows (rows + 1 - 1))) by lia.
Qed.

Lemma lookup_insert_defined (h : gmap positive ATen.Tensor) l l' t :
  is_Some (h !! l) → is_Some (<[l':=t]> h !! l).
Proof.
  intros Hl. destruct (decide (l' = l)) as [->|Hne].
  - rewrite lookup_insert_eq. eauto.
  - by rewrite lookup_insert_ne.
Qed.

(** [resize_] returns on a well-formed call. *)
Lemma resize_returns_aux nnz (batch : list Z) rows cols w tc old :
  has_symbolic_sizes_strides_ (this w) = false →
  tensors w !! crow_indices_ (this w) = Some tc →
  last (ATen.sizes tc) = Some old → 0 <= old →
  is_Some (tensors w !! col_indices_ (this w)) →
  is_Some (tensors w !! values_ (this w)) →
  ATen.size_nonnegative batch = true →
  0 <= rows < Int64.max_signed →
  0 <= Z.min nnz (Int64.mul rows cols) →
  ∃ w', resize_ nnz (batch ++ [rows; cols]) w = (inr (), w').
Proof.
  intros Hsym Hc Hold Hold0 Hp Hv Hbatch Hrows Hmin.
  assert (Int64.in_range rows) as Hr
      by (unfold Int64.in_range, Int64.min_signed, Int64.max_signed,
            Int64.half_modulus in *; lia).
  assert (Int64.add rows 1 = rows + 1) as Hadd.
  { apply Int64Facts.wrap_id.
    unfold Int64.in_range, Int64.min_signed, Int64.max_signed,
      Int64.half_modulus in *. lia. }
  destruct (resize_nonnegative tc (batch ++ [Int64.add rows 1])) as [tc1 Hres].
  { apply size_nonnegative_snoc; [done | lia]. }
  pose proof (ATenFacts.resize_ok _ _ _ Hres) as (_ & Hsz & _).
  assert (last (ATen.sizes tc1) = Some (rows + 1)) as HL
      by (rewrite Hsz, Hadd; apply last_snoc).
  assert (∃ r,
    if old <=? Int64.add rows 1
    then ATen.narrow_last tc1 old (Int64.sub (Int64.add rows 1) old) = inr r
    else ATen.narrow_last tc1 rows 1 = inr r) as [r Hnarrow].
  { rewrite Hadd. destruct (old <=? rows + 1) eqn:E.
    - eexists. apply narrow_last_grow_run; [done | lia |].
      unfold Int64.in_range, Int64.min_signed, Int64.max_signed,
        Int64.half_modulus in *. lia.
    - eexists. apply narrow_last_shrink_run; [done | lia]. }
  set (v := if old <=? Int64.add rows 1 then nnz
            else Z.min nnz (Int64.mul rows cols)).
  set (h1 := <[crow_indices_ (this w):=ATen.fill_range tc1 r v]> (tensors w)).
  destruct (lookup_insert_defined (tensors w) (col_indices_ (this w))
              (crow_indices_ (this w)) (ATen.fill_range tc1 r v) Hp) as [tp Hp1].
  destruct (resize_nonnegative tp (batch ++ [Z.min nnz (Int64.mul rows cols)]))
    as [tp1 Hpres]; [by apply size_nonnegative_snoc|].
  set (h2 := <[col_indices_ (this w):=tp1]> h1).
  assert (is_Some (h2 !! values_ (this w))) as [tv Hv2].
  { subst h2 h1. by do 2 apply lookup_insert_defined. }
  destruct (resize_nonnegative tv (batch ++ [Z.min nnz (Int64.mul rows cols)]))
    as [tv1 Hvres]; [by apply size_nonnegative_snoc|].
  eexists.
  exact (resize_run nnz batch rows cols w tc old tc1 r tp tp1 tv tv1
           Hsym Hc Hold Hres Hnarrow Hp1 Hpres Hv2 Hvres).
Qed.

Lemma resize_resized_from t sz t' :
  ATen.resize_ t sz = inr t' → resized_from t t' sz.
Proof.
  intros Hres.
  pose proof (ATenFacts.resize_ok _ _ _ Hres) as (_ & Hsz & Hty & Hdev & Hst & Hlen).
  repeat split.
  - done.
  - unfold tags. by rewrite Hty, Hdev.
  - intros k Hk. by apply (ATenFacts.resize_keeps_cells _ _ _ _ Hres).
  - intros k Hk Hn. rewrite Hst, lookup_app_r by done.
    apply lookup_replicate_2. unfold ATen.numel in Hn. rewrite Hsz in Hn. lia.
Qed.

(** A successful [resize_] was called with a shape of at least two axes. *)
Lemma resize_shape_split nnz size w w' :
  resize_ nnz size w = (inr (), w') →
  ∃ batch rows cols, size = batch ++ [rows; cols].
Proof.
  unfold resize_. intros H.
  inv_head H as u0 Hsym. inv_head H as rows Hrows.
  unfold ArrayRef_at in Hrows.
  destruct (0 <=? Z.of_nat (length size) - 2) eqn:E; [|discriminate].
  destruct (ShapeFacts.split_shape (Z.of_nat (length size)) size)
    as (batch & r & c & dense & Hsize & Hlen); [lia | lia |].
  assert (dense = []) as ->.
  { apply (f_equal length) in Hsize. rewrite !length_app in Hsize.
    cbn [length] in Hsize. destruct dense; [done | cbn [length] in Hsize; lia]. }
  by exists batch, r, c.
Qed.

(** *** [resize_]: what a returning call leaves *)

(** X8. A returning [resize_] records the new shape and nothing else on the
    instance: the cached element count is the one from before the call,
    whatever the new shape is. *)
Theorem resize_records_shape_only (nnz : Z) (size : list Z) (w w' : World) :
  resize_ nnz size w = (inr (), w') →
  sizes_ (this w') = size ∧
  numel_ (this w') = numel_ (this w) ∧
  same_members (this w) (this w').
Proof.
  intros Hrun.
  destruct (resize_shape_split _ _ _ _ Hrun) as (batch & rows & cols & ->).
  apply resize_trace in Hrun
    as (tc & old & tc1 & r & tp & tp1 & tv & tv1 & _ & _ & _ & _ & Hrest).
  cbv zeta in Hrest. destruct Hrest as (_ & _ & _ & _ & ->).
  by repeat split.
Qed.

Lemma resize_records_shape_only_witness :
  sizes_ (this (resize_ 5 [4; 4] csr_2x4).2) = [4; 4] ∧
  numel_ (this (resize_ 5 [4; 4] csr_2x4).2) = numel_ (this csr_2x4) ∧
  same_members (this csr_2x4) (this (resize_ 5 [4; 4] csr_2x4).2).
Proof.
  apply (resize_records_shape_only 5 [4; 4] csr_2x4). reflexivity.
Defined.

(** X9. After a returning [resize_] on an instance with three different
    buffers, the plain-index and the values buffer both have the shape
    [batch ++ [min(nnz, rows*cols)]] (the product in 64-bit arithmetic).
    Each keeps its device, its element type and the cells it had; elements
    beyond those cells are uninitialized, not zero. *)
Theorem resize_plain_indices_and_values
    (nnz : Z) (batch : list Z) (rows cols : Z) (w w' : World)
    (tp tv : ATen.Tensor) :
  NoDup [crow_indices_ (this w); col_indices_ (this w); values_ (this w)] →
  tensors w !! col_indices_ (this w) = Some tp →
  tensors w !! values_ (this w) = Some tv →
  resize_ nnz (batch ++ [rows; cols]) w = (inr (), w') →
  ∃ tp' tv',
    tensors w' !! col_indices_ (this w') = Some tp' ∧
    tensors w' !! values_ (this w') = Some tv' ∧
    resized_from tp tp' (batch ++ [Z.min nnz (Int64.mul rows cols)]) ∧
    resized_from tv tv' (batch ++ [Z.min nnz (Int64.mul rows cols)]).
Proof.
  intros Hdistinct Hp Hv Hrun.
  rewrite !NoDup_cons, !not_elem_of_cons in Hdistinct.
  destruct Hdistinct as ((Hcp & Hcv & _) & (Hpv & _) & _).
  apply resize_trace in Hrun
    as (tc & old & tc1 & r & tp0 & tp1 & tv0 & tv1 & _ & _ & _ & _ & Hrest).
  cbv zeta in Hrest. destruct Hrest as (Hp0 & Hpres & Hv0 & Hvres & ->).
  rewrite lookup_insert_ne in Hp0 by done.
  rewrite !lookup_insert_ne in Hv0 by congruence.
  assert (tp0 = tp) as -> by congruence.
  assert (tv0 = tv) as -> by congruence.
  exists tp1, tv1. cbn [tensors this col_indices_ values_ with_sizes].
  split; [by rewrite lookup_insert_ne, lookup_insert_eq by congruence|].
  split; [by rewrite lookup_insert_eq|].
  split; by apply resize_resized_from.
Qed.

Lemma resize_plain_indices_and_values_witness :
  ∃ tp' tv',
    tensors (resize_ 50 [4; 4] csr_2x4).2
      !! col_indices_ (this (resize_ 50 [4; 4] csr_2x4).2) = Some tp' ∧
    tensors (resize_ 50 [4; 4] csr_2x4).2
      !! values_ (this (resize_ 50 [4; 4] csr_2x4).2) = Some tv' ∧
    resized_from (tensor_on cpu [5] Long [Some 0; Some 3; Some 0; Some 1; Some 2])
      tp' ([] ++ [Z.min 50 (Int64.mul 4 4)]) ∧
    resized_from (tensor_on cpu [5] Float [Some 11; Some 12; Some 13; Some 14; Some 15])
      tv' ([] ++ [Z.min 50 (Int64.mul 4 4)]).
Proof.
  apply (resize_plain_indices_and_values 50 [] 4 4 csr_2x4 (resize_ 50 [4; 4] csr_2x4).2).
  - by apply (bool_decide_unpack _).
  - reflexivity.
  - reflexivity.
  - reflexivity.
Defined.

(** X10. Shrinking a compressed-index buffer without batch dimensions
    ([rows + 1] below its length): the first [rows] entries are kept and the
    one retained slot after them is overwritten with [min(nnz, rows*cols)]
    (the product in 64-bit arithmetic). *)
Theorem resize_shrink_unbatched
    (nnz rows cols : Z) (w w' : World) (tc : ATen.Tensor) (old : Z) :
  Int64.in_range rows →
  crow_indices_ (this w) ≠ col_indices_ (this w) →
  crow_indices_ (this w) ≠ values_ (this w) →
  tensors w !! crow_indices_ (this w) = Some tc →
  ATen.sizes tc = [old] →
  storage_covers tc →
  rows + 1 < old →
  resize_ nnz [rows; cols] w = (inr (), w') →
  ∃ tc',
    tensors w' !! crow_indices_ (this w') = Some tc' ∧
    ATen.sizes tc' = [rows + 1] ∧
    ATen.contents tc' =
      take (Z.to_nat rows) (ATen.contents tc)
      ++ [Some (Z.min nnz (Int64.mul rows cols))].
Proof.
  intros Hrows Hcp Hcv Hc Hsizes Hwf Hshrink Hrun.
  destruct (resize_crow_indices nnz [] rows cols w w' Hrows Hcp Hcv Hrun)
    as (tc0 & old0 & tc1 & r & Hc0 & Hold0 & Hres & Hnn & Hrange & Hsame & Hcrow').
  assert (tc0 = tc) as -> by congruence.
  assert (old0 = old) as -> by (rewrite Hsizes in Hold0; cbn in Hold0; congruence).
  replace (old <=? rows + 1) with false in * by lia.
  destruct Hrange as (Hrows0 & Hstart & Hlength).
  pose proof (ATenFacts.resize_ok _ _ _ Hres) as (_ & Hsz & _ & _ & Hst & Hlen).
  cbn [app] in Hsz.
  assert (ATen.numel tc1 = rows + 1) as Hnumel1.
  { unfold ATen.numel, ATen.numel_of. rewrite Hsz. cbn. lia. }
  assert (ATen.numel tc = old) as Hnumel.
  { unfold ATen.numel, ATen.numel_of. rewrite Hsizes. cbn. lia. }
  unfold storage_covers in Hwf. rewrite Hnumel in Hwf.
  eexists. rewrite Hsame. split; [exact Hcrow'|]. split; [exact Hsz|].
  unfold ATen.contents at 1 2, ATen.numel at 1.
  cbn [ATen.fill_range ATen.sizes ATen.storage].
  fold (ATen.numel tc1). rewrite Hnumel1, Hnumel.
  apply list_eq. intros k.
  assert (length (take (Z.to_nat rows) (take (Z.to_nat old) (ATen.storage tc)))
          = Z.to_nat rows) as Htake by (rewrite !length_take; lia).
  destruct (decide (k < Z.to_nat (rows + 1))%nat) as [Hk|Hk].
  - rewrite lookup_take_lt, list_lookup_imap by done.
    destruct (ATen.storage tc1 !! k) as [c|] eqn:Hcell;
      [|apply lookup_ge_None in Hcell; lia].
    cbn [fmap option_fmap option_map]. unfold ATen.in_range_last.
    rewrite Hsz. cbn [last]. rewrite Hnumel1, Hstart, Hlength.
    rewrite Z.mod_small by lia.
    destruct (decide (k < Z.to_nat rows)%nat) as [Hkr|Hkr].
    + rewrite lookup_app_l by lia. rewrite !lookup_take_lt by lia.
      rewrite <- (ATenFacts.resize_keeps_cells _ _ _ k Hres), Hcell by lia.
      replace (rows <=? Z.of_nat k) with false by lia.
      by rewrite andb_false_r.
    + rewrite lookup_app_r by lia. rewrite Htake.
      replace (k - Z.to_nat rows)%nat with 0%nat by lia.
      replace (Z.of_nat k <? rows + 1) with true by lia.
      replace (rows <=? Z.of_nat k) with true by lia.
      by replace (Z.of_nat k <? rows + 1) with true by lia.
  - rewrite lookup_take_ge by lia. symmetry. apply lookup_ge_None.
    rewrite length_app, Htake. cbn [length]. lia.
Qed.

Lemma resize_shrink_unbatched_witness :
  ∃ tc',
    tensors (resize_ 3 [1; 4] csr_2x4).2
      !! crow_indices_ (this (resize_ 3 [1; 4] csr_2x4).2) = Some tc' ∧
    ATen.sizes tc' = [1 + 1] ∧
    ATen.contents tc' =
      take (Z.to_nat 1)
        (ATen.contents (tensor_on cpu [3] Long [Some 0; Some 2; Some 5]))
      ++ [Some (Z.min 3 (Int64.mul 1 4))].
Proof.
  apply (resize_shrink_unbatched 3 1 4 csr_2x4 (resize_ 3 [1; 4] csr_2x4).2
           (tensor_on cpu [3] Long [Some 0; Some 2; Some 5]) 3).
  - unfold Int64.in_range, Int64.min_signed, Int64.max_signed, Int64.half_modulus. lia.
  - discriminate.
  - discriminate.
  - reflexivity.
  - reflexivity.
  - unfold storage_covers. cbn. lia.
  - lia.
  - reflexivity.
Defined.

(** X11. When the new compressed-index shape equals the old one, a returning
    [resize_] writes nothing to the compressed-index buffer: it is the same
    tensor afterwards, whatever [nnz] is, so its last entry is not brought in
    line with the new number of stored entries. *)
Theorem resize_same_shape_keeps_compressed_indices
    (nnz : Z) (batch : list Z) (rows cols : Z) (w w' : World) (tc : ATen.Tensor) :
  Int64.in_range rows →
  crow_indices_ (this w) ≠ col_indices_ (this w) →
  crow_indices_ (this w) ≠ values_ (this w) →
  tensors w !! crow_indices_ (this w) = Some tc →
  ATen.sizes tc = batch ++ [rows + 1] →
  storage_covers tc →
  resize_ nnz (batch ++ [rows; cols]) w = (inr (), w') →
  tensors w' !! crow_indices_ (this w') = Some tc.
Proof.
  intros Hrows Hcp Hcv Hc Hsizes Hwf Hrun.
  destruct (resize_crow_indices nnz batch rows cols w w' Hrows Hcp Hcv Hrun)
    as (tc0 & old & tc1 & r & Hc0 & Hold & Hres & Hnn & Hrange & Hsame & Hcrow').
  assert (tc0 = tc) as -> by congruence.
  assert (old = rows + 1) as ->.
  { rewrite Hsizes, last_snoc in Hold. congruence. }
  rewrite Z.leb_refl in *. destruct Hrange as (_ & Hstart & Hlength).
  rewrite Hsame, Hcrow'. f_equal.
  pose proof (ATenFacts.resize_ok _ _ _ Hres) as (_ & Hsz & Hty & Hdev & Hst & _).
  unfold storage_covers, ATen.numel in Hwf. rewrite Hsizes in Hwf.
  replace (Z.to_nat (ATen.numel_of (batch ++ [(rows + 1)%Z])) - length (ATen.storage tc))%nat
    with 0%nat in Hst by lia.
  cbn [replicate] in Hst. rewrite app_nil_r in Hst.
  unfold ATen.fill_range. rewrite Hsz, Hty, Hdev, Hst, <- Hsizes.
  destruct tc as [sz dt dev st]. cbn [ATen.sizes ATen.scalar_type ATen.device ATen.storage] in *.
  f_equal. apply list_eq. intros k. rewrite list_lookup_imap.
  destruct (st !! k) as [c|]; [|done]. cbn [fmap option_fmap option_map].
  unfold ATen.in_range_last. destruct (last (ATen.sizes tc1)); [|done].
  rewrite Hstart, Hlength.
  replace (Z.of_nat k `mod` z <? rows + 1 + (rows + 1 - (rows + 1)))
    with (negb (rows + 1 <=? Z.of_nat k `mod` z)) by lia.
  by destruct (rows + 1 <=? Z.of_nat k `mod` z); rewrite ?andb_false_r, ?andb_true_r;
    cbn; rewrite ?andb_false_r.
Qed.

Lemma resize_same_shape_keeps_compressed_indices_witness :
  tensors (resize_ 3 [2; 9] csr_2x4).2
    !! crow_indices_ (this (resize_ 3 [2; 9] csr_2x4).2)
  = Some (tensor_on cpu [3] Long [Some 0; Some 2; Some 5]).
Proof.
  apply (resize_same_shape_keeps_compressed_indices 3 [] 2 9 csr_2x4
           (resize_ 3 [2; 9] csr_2x4).2
           (tensor_on cpu [3] Long [Some 0; Some 2; Some 5])).
  - unfold Int64.in_range, Int64.min_signed, Int64.max_signed, Int64.half_modulus. lia.
  - discriminate.
  - discriminate.
  - reflexivity.
  - reflexivity.
  - unfold storage_covers. cbn. lia.
  - reflexivity.
Defined.

Lemma min_product_nonnegative nnz rows cols :
  0 <= nnz → 0 <= rows → 0 <= cols → Int64.in_range (rows * cols) →
  0 <= Z.min nnz (Int64.mul rows cols).
Proof.
  intros Hn Hr Hc Hrange. unfold Int64.mul.
  rewrite Int64Facts.wrap_id by done. nia.
Qed.

(** X12. [resize_] returns whenever the call is well formed: the instance has
    a concrete shape, its three buffers are in the store, the
    compressed-index buffer has a last axis, the new shape is a non-negative
    batch shape followed by [rows >= 0] and [cols >= 0] whose product fits
    into 64 bits, and [nnz >= 0]. The buffers need not be different
    tensors. *)
Theorem resize_returns
    (nnz : Z) (batch : list Z) (rows cols : Z) (w : World)
    (tc : ATen.Tensor) (old : Z) :
  has_symbolic_sizes_strides_ (this w) = false →
  tensors w !! crow_indices_ (this w) = Some tc →
  last (ATen.sizes tc) = Some old → 0 <= old →
  is_Some (tensors w !! col_indices_ (this w)) →
  is_Some (tensors w !! values_ (this w)) →
  ATen.size_nonnegative batch = true →
  0 <= rows < Int64.max_signed →
  0 <= cols →
  Int64.in_range (rows * cols) →
  0 <= nnz →
  ∃ w', resize_ nnz (batch ++ [rows; cols]) w = (inr (), w').
Proof.
  intros Hsym Hc Hold Hold0 Hp Hv Hbatch Hrows Hcols Hprod Hnnz.
  eapply resize_returns_aux; try done.
  apply min_product_nonnegative; [done | lia | done | done].
Qed.

Lemma resize_returns_witness :
  ∃ w', resize_ 5 ([] ++ [4; 4]) csr_2x4 = (inr (), w').
Proof.
  apply (resize_returns 5 [] 4 4 csr_2x4
           (tensor_on cpu [3] Long [Some 0; Some 2; Some 5]) 3).
  - reflexivity.
  - reflexivity.
  - reflexivity.
  - lia.
  - by eexists.
  - by eexists.
  - reflexivity.
  - unfold Int64.max_signed, Int64.half_modulus. lia.
  - lia.
  - unfold Int64.in_range, Int64.min_signed, Int64.max_signed, Int64.half_modulus. lia.
  - lia.
Defined.

(** X13. The first [resize_] of an instance whose compressed-index buffer is
    still the empty placeholder of the empty constructor (shape [0]) returns
    and leaves [rows + 1] compressed indices that all hold [nnz] -- the
    first one included, which is therefore not zero unless [nnz] is. *)
Theorem resize_from_empty_buffer
    (nnz rows cols : Z) (w : World) (tc : ATen.Tensor) :
  has_symbolic_sizes_strides_ (this w) = false →
  crow_indices_ (this w) ≠ col_indices_ (this w) →
  crow_indices_ (this w) ≠ values_ (this w) →
  tensors w !! crow_indices_ (this w) = Some tc →
  ATen.sizes tc = [0] →
  is_Some (tensors w !! col_indices_ (this w)) →
  is_Some (tensors w !! values_ (this w)) →
  0 <= rows < Int64.max_signed →
  0 <= cols →
  Int64.in_range (rows * cols) →
  0 <= nnz →
  ∃ w' tc',
    resize_ nnz [rows; cols] w = (inr (), w') ∧
    tensors w' !! crow_indices_ (this w') = Some tc' ∧
    ATen.sizes tc' = [rows + 1] ∧
    ATen.contents tc' = replicate (Z.to_nat (rows + 1)) (Some nnz).
Proof.
  intros Hsym Hcp Hcv Hc Hsizes Hp Hv Hrows Hcols Hprod Hnnz.
  assert (last (ATen.sizes tc) = Some 0) as Hold by by rewrite Hsizes.
  destruct (resize_returns_aux nnz [] rows cols w tc 0) as [w' Hrun]; try done.
  { apply min_product_nonnegative; [done | lia | done | done]. }
  cbn [app] in Hrun.
  assert (Int64.in_range rows) as Hr
      by (unfold Int64.in_range, Int64.min_signed, Int64.max_signed,
            Int64.half_modulus in *; lia).
  destruct (resize_grow_unbatched nnz rows cols w w' tc 0)
    as (tc' & Hc' & Hsz' & Hcontents); try done; [cbn; lia | lia |].
  exists w', tc'. repeat split; try done.
  rewrite Hcontents. unfold ATen.contents, ATen.numel. rewrite Hsizes.
  cbn [ATen.numel_of foldr]. by rewrite Z.sub_0_r.
Qed.

Lemma resize_from_empty_buffer_witness :
  ∃ w' tc',
    resize_ 4 [2; 3] (placeholder kSparseCsr) = (inr (), w') ∧
    tensors w' !! crow_indices_ (this w') = Some tc' ∧
    ATen.sizes tc' = [2 + 1] ∧
    ATen.contents tc' = replicate (Z.to_nat (2 + 1)) (Some 4).
Proof.
  apply (resize_from_empty_buffer 4 2 3 (placeholder kSparseCsr)
           (tensor_on cpu [0] Int [])).
  - reflexivity.
  - discriminate.
  - discriminate.
  - reflexivity.
  - reflexivity.
  - by eexists.
  - by eexists.
  - unfold Int64.max_signed, Int64.half_modulus. lia.
  - lia.
  - unfold Int64.in_range, Int64.min_signed, Int64.max_signed, Int64.half_modulus. lia.
  - lia.
Defined.

(** *** [resize_and_clear_], forwards *)

Lemma slice_blocksize_run tc tv block_rows block_cols :
  block_shape tc tv = Some (block_rows, block_cols) →
  ArrayRef_slice (ATen.sizes tv) (ATen.dim tc - 1 + 1) 2
  = inr [block_rows; block_cols].
Proof.
  unfold block_shape, ArrayRef_slice, ATen.dim.
  replace (Z.to_nat (Z.of_nat (length (ATen.sizes tc)) - 1 + 1))
    with (length (ATen.sizes tc)) by lia.
  pose proof (length_drop (ATen.sizes tv) (length (ATen.sizes tc))) as Hlen.
  destruct (drop (length (ATen.sizes tc)) (ATen.sizes tv)) as [|br [|bc rest]];
    try discriminate.
  intros [= <- <-]. cbn [length] in Hlen.
  by rewrite !(proj2 (Z.leb_le _ _)) by lia.
Qed.

Lemma slice_blocksize_raise tc tv :
  block_shape tc tv = None →
  ArrayRef_slice (ATen.sizes tv) (ATen.dim tc - 1 + 1) 2 = inl OutOfBounds.
Proof.
  intros Hnone.
  destruct (ArrayRef_slice (ATen.sizes tv) (ATen.dim tc - 1 + 1) 2)
    as [e|blocksize] eqn:E.
  - revert E. unfold ArrayRef_slice. by destruct (_ && _); intros [= <-].
  - apply ShapeFacts.slice_blocksize in E as (br & bc & _ & Hsome). congruence.
Qed.

Lemma batch_dim_run w tc :
  tensors w !! crow_indices_ (this w) = Some tc →
  batch_dim w = (inr (ATen.dim tc - 1), w).
Proof.
  intros Hc. unfold batch_dim. rewrite bind_field.
  run (on_store_run _ w _ _ (Tensor_dim_run _ _ _ Hc)). by destruct w.
Qed.

Lemma block_action_run (the_layout : Layout) (values_size : list Z) (n : Z)
    w tc tv block_rows block_cols :
  tensors w !! crow_indices_ (this w) = Some tc →
  tensors w !! values_ (this w) = Some tv →
  block_shape tc tv = Some (block_rows, block_cols) →
  (if bool_decide (the_layout = kSparseBsr) then block_rows else block_cols) ≠ 0 →
  (values <- field values_;
   values_sizes <- on_store (Tensor.sizes values);
   bd <- batch_dim;
   blocksize <- lift_result (ArrayRef_slice values_sizes (bd + 1) 2);
   edge <- lift_result
     (ArrayRef_at blocksize (if bool_decide (the_layout = kSparseBsr) then 0 else 1));
   n' <- lift_result (int64_divide n edge);
   ret (values_size ++ blocksize, n')) w
  = (inr (values_size ++ [block_rows; block_cols],
          Int64.div n (if bool_decide (the_layout = kSparseBsr)
                       then block_rows else block_cols)), w).
Proof.
  intros Hc Hv Hblock Hedge. destruct w as [h s]. cbn [tensors this] in *.
  rewrite bind_field. cbv beta. cbn [this].
  run (on_store_run _ {| tensors := h; this := s |} _ _ (Tensor_sizes_run _ _ _ Hv)).
  cbn [tensors this].
  run (batch_dim_run {| tensors := h; this := s |} tc Hc).
  rewrite (slice_blocksize_run _ _ _ _ Hblock). cbn [lift_result].
  rewrite (bind_run _ _ _ _ _ (eq_refl : ret [block_rows; block_cols] _ = _)).
  cbv beta.
  destruct (bool_decide (the_layout = kSparseBsr)).
  - change (ArrayRef_at [block_rows; block_cols] 0) with (inr (A:=Error) block_rows).
    cbn [lift_result].
    rewrite (bind_run _ _ _ _ _ (eq_refl : ret block_rows _ = _)). cbv beta.
    unfold int64_divide. by rewrite (proj2 (Z.eqb_neq _ 0) Hedge).
  - change (ArrayRef_at [block_rows; block_cols] 1) with (inr (A:=Error) block_cols).
    cbn [lift_result].
    rewrite (bind_run _ _ _ _ _ (eq_refl : ret block_cols _ = _)). cbv beta.
    unfold int64_divide. by rewrite (proj2 (Z.eqb_neq _ 0) Hedge).
Qed.

(** The converse of [resize_and_clear_trace]. *)
Lemma resize_and_clear_run sparse_dim (batch : list Z) rows cols dense w tc tv
    groups tail tc1 tp tp1 tv' tv1 :
  has_symbolic_sizes_strides_ (this w) = false →
  2 <= sparse_dim →
  Z.of_nat (length batch) = sparse_dim - 2 →
  tensors w !! crow_indices_ (this w) = Some tc →
  tensors w !! values_ (this w) = Some tv →
  compressed_groups (layout_ (this w)) rows cols (block_shape tc tv) = Some groups →
  values_tail (layout_ (this w)) dense (block_shape tc tv) = Some tail →
  block_edge_nonzero (layout_ (this w)) (block_shape tc tv) →
  ATen.resize_ tc (batch ++ [Int64.add groups 1]) = inr tc1 →
  let h1 := <[crow_indices_ (this w):=ATen.zero_ tc1]> (tensors w) in
  h1 !! col_indices_ (this w) = Some tp →
  ATen.resize_ tp (batch ++ [0]) = inr tp1 →
  let h2 := <[col_indices_ (this w):=tp1]> h1 in
  h2 !! values_ (this w) = Some tv' →
  ATen.resize_ tv' (batch ++ [0] ++ tail) = inr tv1 →
  resize_and_clear_ sparse_dim (batch ++ [rows; cols] ++ dense) w
  = (inr (), {| tensors := <[values_ (this w):=tv1]> h2;
                this := with_numel
                          (foldr Int64.mul 1 (batch ++ [rows; cols] ++ dense))
                          (with_sizes (batch ++ [rows; cols] ++ dense) (this w)) |}).
Proof.
  intros Hsym Hsd Hbd Hc Hv Hg Ht Hedge Hres h1 Hp Hpres h2 Hv' Hvres.
  destruct w as [h s]. cbn [tensors this] in *.
  unfold resize_and_clear_, set_sizes, refresh_numel.
  run (check_not_symbolic_pass {| tensors := h; this := s |} Hsym).
  run (TORCH_CHECK_run (S:=World) (2 <=? sparse_dim) InvalidArgument
         {| tensors := h; this := s |} (proj2 (Z.leb_le _ _) Hsd)).
  assert (sparse_dim <= Z.of_nat (length (batch ++ [rows; cols] ++ dense))) as Hlen
      by (rewrite !length_app; cbn [length]; lia).
  run (TORCH_CHECK_run (S:=World) _ InvalidArgument
         {| tensors := h; this := s |} (proj2 (Z.leb_le _ _) Hlen)).
  replace (sparse_dim - 2) with (Z.of_nat (length batch)) by lia.
  rewrite ShapeFacts.slice_batchsize, ShapeFacts.slice_densesize,
    ShapeFacts.at_structural_rows, ShapeFacts.at_structural_cols.
  cbn [lift_result].
  rewrite (bind_run _ _ _ _ _ (eq_refl : ret batch _ = _)). cbv beta.
  rewrite (bind_run _ _ _ _ _ (eq_refl : ret dense _ = _)). cbv beta.
  run_pure.
  assert (∃ n,
    AT_DISPATCH_ROW_SPARSE_COMPRESSED_LAYOUTS (layout_ s)
      (ret rows) (ret cols) {| tensors := h; this := s |}
    = (inr n, {| tensors := h; this := s |}) ∧
    AT_DISPATCH_PLAIN_SPARSE_COMPRESSED_LAYOUTS (layout_ s)
      (ret (batch ++ [0] ++ dense, n))
      (λ the_layout,
         values <- field values_;
         values_sizes <- on_store (Tensor.sizes values);
         bd <- batch_dim;
         blocksize <- lift_result (ArrayRef_slice values_sizes (bd + 1) 2);
         edge <- lift_result
           (ArrayRef_at blocksize
              (if bool_decide (the_layout = kSparseBsr) then 0 else 1));
         n0 <- lift_result (int64_divide n edge);
         ret ((batch ++ [0] ++ dense) ++ blocksize, n0))
      {| tensors := h; this := s |}
    = (inr (batch ++ [0] ++ tail, groups), {| tensors := h; this := s |}))
    as (n & Hrow & Hplain).
  { destruct (layout_ s) eqn:Hlayout; cbn in Hg, Ht; try discriminate.
    - injection Hg as <-. injection Ht as <-. by exists rows.
    - injection Hg as <-. injection Ht as <-. by exists cols.
    - destruct (block_shape tc tv) as [[br bc]|] eqn:Hblock; [|discriminate].
      injection Hg as <-. injection Ht as <-. exists rows. split; [done|].
      cbn [AT_DISPATCH_PLAIN_SPARSE_COMPRESSED_LAYOUTS].
      rewrite (block_action_run kSparseBsr _ rows {| tensors := h; this := s |}
                 tc tv br bc Hc Hv Hblock Hedge).
      cbn. by rewrite <- !app_assoc.
    - destruct (block_shape tc tv) as [[br bc]|] eqn:Hblock; [|discriminate].
      injection Hg as <-. injection Ht as <-. exists cols. split; [done|].
      cbn [AT_DISPATCH_PLAIN_SPARSE_COMPRESSED_LAYOUTS].
      rewrite (block_action_run kSparseBsc _ cols {| tensors := h; this := s |}
                 tc tv br bc Hc Hv Hblock Hedge).
      cbn. by rewrite <- !app_assoc. }
  run Hrow. run_pure. run Hplain. cbn [fst snd]. run_pure.
  run (on_store_run _ {| tensors := h; this := s |} _ _
         (Tensor_resize_run _ _ _ _ _ Hc Hres)).
  cbn [tensors this]. run_pure.
  run (on_store_run _ {| tensors := <[crow_indices_ s:=tc1]> h; this := s |} _ _
         (Tensor_zero_run _ _ _ (lookup_insert_eq _ _ _))).
  cbn [tensors this]. rewrite insert_insert_eq. fold h1. run_pure.
  run (on_store_run _ {| tensors := h1; this := s |} _ _
         (Tensor_resize_run _ _ _ _ _ Hp Hpres)).
  cbn [tensors this]. fold h2. run_pure.
  run (on_store_run _ {| tensors := h2; this := s |} _ _
         (Tensor_resize_run _ _ _ _ _ Hv' Hvres)).
  cbn [tensors this]. run_pure. reflexivity.
Qed.

Lemma wrap_mul_wrap a b : Int64.wrap (a * Int64.wrap b) = Int64.wrap (a * b).
Proof.
  unfold Int64.wrap. f_equal.
  pose proof (Z.div_mod (b + Int64.half_modulus) Int64.modulus) as Hb.
  assert (Int64.modulus ≠ 0) as Hm by (unfold Int64.modulus; lia).
  specialize (Hb Hm).
  replace (a * ((b + Int64.half_modulus) `mod` Int64.modulus - Int64.half_modulus)
           + Int64.half_modulus)
    with (a * b + Int64.half_modulus
          + (- a * ((b + Int64.half_modulus) `div` Int64.modulus)) * Int64.modulus)
    by nia.
  by rewrite Z.mod_add.
Qed.

Lemma foldr_mul_wrap (sz : list Z) :
  foldr Int64.mul 1 sz = Int64.wrap (ATen.numel_of sz).
Proof.
  unfold ATen.numel_of. induction sz as [|x sz IH]; [reflexivity|].
  cbn [foldr]. rewrite IH. unfold Int64.mul. apply wrap_mul_wrap.
Qed.

Lemma resize_and_clear_shape_split sparse_dim size w w' :
  resize_and_clear_ sparse_dim size w = (inr (), w') →
  ∃ batch rows cols dense,
    size = batch ++ [rows; cols] ++ dense ∧
    Z.of_nat (length batch) = sparse_dim - 2 ∧ 2 <= sparse_dim.
Proof.
  intros Hrun.
  assert (2 <= sparse_dim ∧ sparse_dim <= Z.of_nat (length size)) as [Hsd Hlen].
  { pose proof Hrun as H. unfold resize_and_clear_ in H.
    inv_head H as u0 Hsym. inv_head H as u1 H1. inv_head H as u2 H2. lia. }
  destruct (ShapeFacts.split_shape sparse_dim size Hsd Hlen)
    as (batch & rows & cols & dense & -> & Hbd).
  by exists batch, rows, cols, dense.
Qed.

(** X14. A returning [resize_and_clear_] records the new shape and refreshes
    the cached element count: it is the product of the new shape whenever
    that product fits into 64 bits. *)
Theorem resize_and_clear_refreshes_numel
    (sparse_dim : Z) (size : list Z) (w w' : World) (tc tv : ATen.Tensor) :
  tensors w !! crow_indices_ (this w) = Some tc →
  tensors w !! values_ (this w) = Some tv →
  Int64.in_range (ATen.numel_of size) →
  resize_and_clear_ sparse_dim size w = (inr (), w') →
  sizes_ (this w') = size ∧ numel_ (this w') = ATen.numel_of size.
Proof.
  intros Hc Hv Hrange Hrun.
  destruct (resize_and_clear_shape_split _ _ _ _ Hrun)
    as (batch & rows & cols & dense & -> & Hbd & _).
  apply (resize_and_clear_trace _ _ _ _ _ _ _ tc tv Hbd Hc Hv) in Hrun
    as (groups & tail & tc1 & tp & tp1 & tv0 & tv1 & _ & _ & _ & Hrest).
  cbv zeta in Hrest. destruct Hrest as (_ & _ & _ & _ & ->).
  cbn [this sizes_ numel_ with_numel with_sizes]. split; [done|].
  rewrite foldr_mul_wrap. by apply Int64Facts.wrap_id.
Qed.

Lemma resize_and_clear_refreshes_numel_witness :
  sizes_ (this (resize_and_clear_ 2 [5; 5] bsr_4x4).2) = [5; 5] ∧
  numel_ (this (resize_and_clear_ 2 [5; 5] bsr_4x4).2) = ATen.numel_of [5; 5].
Proof.
  apply (resize_and_clear_refreshes_numel 2 [5; 5] bsr_4x4
           (resize_and_clear_ 2 [5; 5] bsr_4x4).2
           (tensor_on cpu [3] Long [Some 0; Some 1; Some 2])
           (tensor_on cpu [2; 2; 2] Float (replicate 8 (Some 9)))).
  - reflexivity.
  - reflexivity.
  - unfold Int64.in_range, Int64.min_signed, Int64.max_signed, Int64.half_modulus.
    cbn. lia.
  - reflexivity.
Defined.

(** X15. On a block layout, [resize_and_clear_] reads the block shape off the
    current values buffer. If that buffer has fewer than two axes after its
    entries axis -- as the placeholder of the empty constructor has -- the
    call raises, and the store and the instance are as they were. *)
Theorem resize_and_clear_block_without_block_axes
    (sparse_dim : Z) (size : list Z) (w : World) (tc tv : ATen.Tensor) :
  has_symbolic_sizes_strides_ (this w) = false →
  layout_ (this w) = kSparseBsr ∨ layout_ (this w) = kSparseBsc →
  2 <= sparse_dim <= Z.of_nat (length size) →
  tensors w !! crow_indices_ (this w) = Some tc →
  tensors w !! values_ (this w) = Some tv →
  (length (ATen.sizes tv) < length (ATen.sizes tc) + 2)%nat →
  resize_and_clear_ sparse_dim size w = (inl OutOfBounds, w).
Proof.
  intros Hsym Hlayout [Hsd Hlen] Hc Hv Hshort.
  assert (block_shape tc tv = None) as Hnone.
  { unfold block_shape.
    pose proof (length_drop (ATen.sizes tv) (length (ATen.sizes tc))) as Hd.
    destruct (drop (length (ATen.sizes tc)) (ATen.sizes tv)) as [|br [|bc rest]];
      [done | done | cbn [length] in Hd; lia]. }
  destruct (ShapeFacts.split_shape sparse_dim size Hsd Hlen)
    as (batch & rows & cols & dense & -> & Hbd).
  destruct w as [h s]. cbn [tensors this] in *.
  unfold resize_and_clear_.
  run (check_not_symbolic_pass {| tensors := h; this := s |} Hsym).
  run (TORCH_CHECK_run (S:=World) (2 <=? sparse_dim) InvalidArgument
         {| tensors := h; this := s |} (proj2 (Z.leb_le _ _) Hsd)).
  run (TORCH_CHECK_run (S:=World) _ InvalidArgument
         {| tensors := h; this := s |} (proj2 (Z.leb_le _ _) Hlen)).
  replace (sparse_dim - 2) with (Z.of_nat (length batch)) by lia.
  rewrite ShapeFacts.slice_batchsize, ShapeFacts.slice_densesize,
    ShapeFacts.at_structural_rows, ShapeFacts.at_structural_cols.
  cbn [lift_result].
  rewrite (bind_run _ _ _ _ _ (eq_refl : ret batch _ = _)). cbv beta.
  rewrite (bind_run _ _ _ _ _ (eq_refl : ret dense _ = _)). cbv beta.
  run_pure.
  assert (∀ (the_layout : Layout) n,
    (values <- field values_;
     values_sizes <- on_store (Tensor.sizes values);
     bd <- batch_dim;
     blocksize <- lift_result (ArrayRef_slice values_sizes (bd + 1) 2);
     edge <- lift_result
       (ArrayRef_at blocksize
          (if bool_decide (the_layout = kSparseBsr) then 0 else 1));
     n0 <- lift_result (int64_divide n edge);
     ret ((batch ++ [0] ++ dense) ++ blocksize, n0))
      {| tensors := h; this := s |}
    = (inl OutOfBounds, {| tensors := h; this := s |})) as Hraise.
  { intros the_layout n. rewrite bind_field. cbv beta. cbn [this].
    run (on_store_run _ {| tensors := h; this := s |} _ _ (Tensor_sizes_run _ _ _ Hv)).
    cbn [tensors this].
    run (batch_dim_run {| tensors := h; this := s |} tc Hc).
    by rewrite (slice_blocksize_raise _ _ Hnone). }
  destruct Hlayout as [Hl|Hl]; rewrite Hl;
    cbn [AT_DISPATCH_ROW_SPARSE_COMPRESSED_LAYOUTS];
    rewrite (bind_run _ _ _ _ _ (eq_refl : ret _ _ = _)); cbv beta;
    run_pure; rewrite Hl; cbn [AT_DISPATCH_PLAIN_SPARSE_COMPRESSED_LAYOUTS];
    apply bind_raise, Hraise.
Qed.

Lemma resize_and_clear_block_without_block_axes_witness :
  resize_and_clear_ 2 [4; 4] (placeholder kSparseBsr)
  = (inl OutOfBounds, placeholder kSparseBsr).
Proof.
  apply (resize_and_clear_block_without_block_axes 2 [4; 4] (placeholder kSparseBsr)
           (tensor_on cpu [0] Int []) (tensor_on cpu [0] Float [])).
  - reflexivity.
  - by left.
  - cbn. lia.
  - reflexivity.
  - reflexivity.
  - cbn. lia.
Defined.

Lemma block_action_edge (the_layout : Layout) (values_size : list Z) (n : Z)
    w vn w' tc tv :
  tensors w !! crow_indices_ (this w) = Some tc →
  tensors w !! values_ (this w) = Some tv →
  (values <- field values_;
   values_sizes <- on_store (Tensor.sizes values);
   bd <- batch_dim;
   blocksize <- lift_result (ArrayRef_slice values_sizes (bd + 1) 2);
   edge <- lift_result
     (ArrayRef_at blocksize (if bool_decide (the_layout = kSparseBsr) then 0 else 1));
   n' <- lift_result (int64_divide n edge);
   ret (values_size ++ blocksize, n')) w = (inr vn, w') →
  ∃ block_rows block_cols,
    block_shape tc tv = Some (block_rows, block_cols) ∧
    (if bool_decide (the_layout = kSparseBsr) then block_rows else block_cols) ≠ 0.
Proof.
  intros Hc Hv H.
  inv_head H as values Hf. inv_head H as values_sizes Hs.
  apply on_store_ok in Hs as (h & Hs & ->).
  apply Tensor_sizes_ok in Hs as (tv0 & Hv0 & -> & ->).
  assert (tv0 = tv) as -> by congruence.
  inv_head H as bd Hbd.
  apply batch_dim_ok in Hbd as (tc0 & Hc0 & -> & ->). cbn [tensors this] in *.
  assert (tc0 = tc) as -> by congruence.
  inv_head H as blocksize Hblock.
  apply ShapeFacts.slice_blocksize in Hblock as (br & bc & -> & Hshape).
  inv_head H as edge Hedge. inv_head H as n' Hdiv.
  exists br, bc. split; [done|].
  unfold int64_divide in Hdiv. destruct (edge =? 0) eqn:E; [discriminate|].
  apply Z.eqb_neq in E.
  destruct (bool_decide (the_layout = kSparseBsr)); cbn in Hedge;
    by injection Hedge as <-.
Qed.

(** A returning [resize_and_clear_] divided by a non-zero block edge. *)
Lemma resize_and_clear_edge sparse_dim (batch : list Z) rows cols dense w w' tc tv :
  Z.of_nat (length batch) = sparse_dim - 2 →
  tensors w !! crow_indices_ (this w) = Some tc →
  tensors w !! values_ (this w) = Some tv →
  resize_and_clear_ sparse_dim (batch ++ [rows; cols] ++ dense) w = (inr (), w') →
  block_edge_nonzero (layout_ (this w)) (block_shape tc tv).
Proof.
  intros Hbd Hc Hv H. unfold resize_and_clear_ in H.
  inv_head H as u0 Hsym. inv_head H as u1 Hsd. inv_head H as u2 Hlen.
  inv_head H as batchsize Hb. inv_head H as densesize Hd.
  inv_head H as layout Hl. inv_head H as n Hn. inv_head H as layout' Hl'.
  inv_head H as vn Hvn.
  assert (s = w) as ->.
  { destruct (layout_ (this w)); cbn in Hn; try discriminate;
      by apply lift_result_ok in Hn as [_ ->]. }
  unfold block_edge_nonzero.
  destruct (layout_ (this w)) eqn:Hlayout; try done;
    cbn [AT_DISPATCH_PLAIN_SPARSE_COMPRESSED_LAYOUTS] in Hvn;
    apply (block_action_edge _ _ _ _ _ _ tc tv Hc Hv) in Hvn
      as (br & bc & -> & Hedge); by cbn in Hedge.
Qed.

Lemma resize_same_shape t sz :
  ATen.sizes t = sz → ATen.size_nonnegative sz = true → storage_covers t →
  ATen.resize_ t sz = inr t.
Proof.
  intros Hsz Hnn Hcov. unfold ATen.resize_. rewrite Hnn. f_equal.
  unfold storage_covers, ATen.numel in Hcov. rewrite Hsz in Hcov.
  replace (Z.to_nat (ATen.numel_of sz) - length (ATen.storage t))%nat with 0%nat by lia.
  cbn [replicate]. rewrite app_nil_r. destruct t; cbn in *. by subst.
Qed.

Lemma zero_twice t : ATen.zero_ (ATen.zero_ t) = ATen.zero_ t.
Proof.
  unfold ATen.zero_ at 1. cbn [ATen.sizes ATen.scalar_type ATen.device ATen.storage ATen.zero_].
  unfold ATen.zero_. f_equal. unfold ATen.numel. cbn [ATen.sizes].
  apply list_eq. intros k. rewrite !list_lookup_imap.
  destruct (ATen.storage t !! k) as [c|]; [|done].
  cbn. by destruct (Z.of_nat k <? ATen.numel_of (ATen.sizes t)).
Qed.

Lemma storage_covers_zero t : storage_covers t → storage_covers (ATen.zero_ t).
Proof.
  unfold storage_covers, ATen.zero_, ATen.numel. cbn [ATen.sizes ATen.storage].
  by rewrite length_imap.
Qed.

Lemma resize_covers t sz t' : ATen.resize_ t sz = inr t' → storage_covers t'.
Proof. intros H. by apply ATenFacts.resize_ok in H as (_ & _ & _ & _ & _ & ?). Qed.

(** X16. [resize_and_clear_] returns whenever the call is well formed: a
    concrete-shape instance with its three buffers in the store, a layout it
    can serve, [sparse_dim >= 2], and a shape without negative entries of
    which [sparse_dim - 2] are batch axes and whose structural axes are below
    the largest 64-bit integer. The buffers need not be different tensors. *)
Theorem resize_and_clear_returns
    (sparse_dim : Z) (batch : list Z) (rows cols : Z) (dense : list Z)
    (w : World) (tc tv : ATen.Tensor) :
  has_symbolic_sizes_strides_ (this w) = false →
  2 <= sparse_dim →
  Z.of_nat (length batch) = sparse_dim - 2 →
  tensors w !! crow_indices_ (this w) = Some tc →
  is_Some (tensors w !! col_indices_ (this w)) →
  tensors w !! values_ (this w) = Some tv →
  clearable (layout_ (this w)) (block_shape tc tv) →
  ATen.size_nonnegative batch = true →
  ATen.size_nonnegative dense = true →
  0 <= rows < Int64.max_signed →
  0 <= cols < Int64.max_signed →
  ∃ w', resize_and_clear_ sparse_dim (batch ++ [rows; cols] ++ dense) w = (inr (), w').
Proof.
  intros Hsym Hsd Hbd Hc Hp Hv Hclear Hbatch Hdense Hrows Hcols.
  assert (∀ x, 0 <= x < Int64.max_signed → Int64.in_range x) as Hin.
  { intros x Hx. unfold Int64.in_range, Int64.min_signed, Int64.max_signed,
      Int64.half_modulus in *. lia. }
  assert (∃ groups tail,
    compressed_groups (layout_ (this w)) rows cols (block_shape tc tv) = Some groups ∧
    values_tail (layout_ (this w)) dense (block_shape tc tv) = Some tail ∧
    block_edge_nonzero (layout_ (this w)) (block_shape tc tv) ∧
    0 <= groups < Int64.max_signed ∧
    ATen.size_nonnegative tail = true) as (groups & tail & Hg & Ht & Hedge & Hgr & Htail).
  { unfold clearable, compressed_groups, values_tail, block_edge_nonzero in *.
    destruct (layout_ (this w)); try done.
    - by exists rows, dense.
    - by exists cols, dense.
    - destruct (block_shape tc tv) as [[br bc]|]; [|done]. destruct Hclear as [Hbr Hbc].
      exists (Int64.div rows br), (dense ++ [br; bc]).
      rewrite Int64Facts.div_exact by (auto; lia).
      pose proof (Z.div_pos rows br). pose proof (Z.div_le_upper_bound rows br rows).
      repeat split; try done; try lia; try nia.
      apply ATenFacts.size_nonnegative_app. split; [done|].
      unfold ATen.size_nonnegative. cbn [forallb].
      by rewrite !(proj2 (Z.leb_le _ _)) by lia.
    - destruct (block_shape tc tv) as [[br bc]|]; [|done]. destruct Hclear as [Hbr Hbc].
      exists (Int64.div cols bc), (dense ++ [br; bc]).
      rewrite Int64Facts.div_exact by (auto; lia).
      pose proof (Z.div_pos cols bc). pose proof (Z.div_le_upper_bound cols bc cols).
      repeat split; try done; try lia; try nia.
      apply ATenFacts.size_nonnegative_app. split; [done|].
      unfold ATen.size_nonnegative. cbn [forallb].
      by rewrite !(proj2 (Z.leb_le _ _)) by lia. }
  assert (Int64.add groups 1 = groups + 1) as Hadd.
  { apply Int64Facts.wrap_id.
    unfold Int64.in_range, Int64.min_signed, Int64.max_signed,
      Int64.half_modulus in *. lia. }
  destruct (resize_nonnegative tc (batch ++ [Int64.add groups 1])) as [tc1 Hres].
  { apply size_nonnegative_snoc; [done | lia]. }
  set (h1 := <[crow_indices_ (this w):=ATen.zero_ tc1]> (tensors w)).
  destruct (lookup_insert_defined (tensors w) (col_indices_ (this w))
              (crow_indices_ (this w)) (ATen.zero_ tc1) Hp) as [tp Hp1].
  destruct (resize_nonnegative tp (batch ++ [0])) as [tp1 Hpres];
    [by apply size_nonnegative_snoc|].
  set (h2 := <[col_indices_ (this w):=tp1]> h1).
  assert (is_Some (h2 !! values_ (this w))) as [tv' Hv2].
  { subst h2 h1. do 2 apply lookup_insert_defined. eauto. }
  destruct (resize_nonnegative tv' (batch ++ [0] ++ tail)) as [tv1 Hvres].
  { apply ATenFacts.size_nonnegative_app. split; [done|].
    apply ATenFacts.size_nonnegative_app. by split. }
  eexists.
  exact (resize_and_clear_run sparse_dim batch rows cols dense w tc tv
           groups tail tc1 tp tp1 tv' tv1
           Hsym Hsd Hbd Hc Hv Hg Ht Hedge Hres Hp1 Hpres Hv2 Hvres).
Qed.

Lemma resize_and_clear_returns_witness :
  ∃ w', resize_and_clear_ 2 ([] ++ [5; 5] ++ []) bsr_4x4 = (inr (), w').
Proof.
  apply (resize_and_clear_returns 2 [] 5 5 [] bsr_4x4
           (tensor_on cpu [3] Long [Some 0; Some 1; Some 2])
           (tensor_on cpu [2; 2; 2] Float (replicate 8 (Some 9)))).
  - reflexivity.
  - lia.
  - reflexivity.
  - reflexivity.
  - by eexists.
  - reflexivity.
  - cbn. lia.
  - reflexivity.
  - reflexivity.
  - unfold Int64.max_signed, Int64.half_modulus. lia.
  - unfold Int64.max_signed, Int64.half_modulus. lia.
Defined.

Lemma block_shape_cleared tc tv (batch : list Z) g tail :
  ATen.sizes tc = batch ++ [g] →
  ATen.sizes tv = batch ++ [0] ++ tail →
  block_shape tc tv =
    match tail with
    | block_rows :: block_cols :: _ => Some (block_rows, block_cols)
    | _ => None
    end.
Proof.
  intros Hc Hv. unfold block_shape. rewrite Hc, Hv, app_assoc.
  rewrite drop_app_length' by (by rewrite !length_app).
  by destruct tail as [|? [|? ?]].
Qed.

Lemma with_shape_twice sz n s :
  with_numel n (with_sizes sz (with_numel n (with_sizes sz s))) =
  with_numel n (with_sizes sz s).
Proof. by destruct s. Qed.

(** X17. [resize_and_clear_] is idempotent on a plain layout, and on a block
    layout when the shape has no dense axes: after a call that returned, the
    same call returns again and changes neither the instance nor any tensor
    of the store. *)
Theorem resize_and_clear_twice
    (sparse_dim : Z) (size : list Z) (w w' : World) (tc tv : ATen.Tensor) :
  NoDup [crow_indices_ (this w); col_indices_ (this w); values_ (this w)] →
  tensors w !! crow_indices_ (this w) = Some tc →
  tensors w !! values_ (this w) = Some tv →
  layout_ (this w) = kSparseCsr ∨ layout_ (this w) = kSparseCsc ∨
    Z.of_nat (length size) = sparse_dim →
  resize_and_clear_ sparse_dim size w = (inr (), w') →
  resize_and_clear_ sparse_dim size w' = (inr (), w').
Proof.
  intros Hnd Hc Hv Hplain H.
  assert (has_symbolic_sizes_strides_ (this w) = false) as Hsym.
  { unfold resize_and_clear_ in H. by inv_head H as u Hs. }
  destruct (resize_and_clear_shape_split _ _ _ _ H)
    as (batch & rows & cols & dense & -> & Hbd & Hsd).
  pose proof (resize_and_clear_edge _ _ _ _ _ _ _ _ _ Hbd Hc Hv H) as Hedge.
  destruct (resize_and_clear_trace _ _ _ _ _ _ _ _ _ Hbd Hc Hv H)
    as (groups & tail & tc1 & tp & tp1 & tv' & tv1 & Hg & Ht & Hres & Hrest).
  cbv zeta in Hrest. destruct Hrest as (Hp & Hpres & Hv2 & Hvres & ->).
  rewrite !NoDup_cons, !not_elem_of_cons in Hnd.
  destruct Hnd as ((Hcp & Hcv & _) & (Hpv & _) & _).
  pose proof (ATenFacts.resize_ok _ _ _ Hres) as (Hnn1 & Hsz1 & _).
  pose proof (ATenFacts.resize_ok _ _ _ Hpres) as (Hnn2 & Hsz2 & _).
  pose proof (ATenFacts.resize_ok _ _ _ Hvres) as (Hnn3 & Hsz3 & _).
  set (c := crow_indices_ (this w)) in *.
  set (p := col_indices_ (this w)) in *.
  set (v := values_ (this w)) in *.
  set (m1 := <[v:=tv1]> (<[p:=tp1]> (<[c:=ATen.zero_ tc1]> (tensors w)))).
  assert (m1 !! c = Some (ATen.zero_ tc1)) as Hc1.
  { subst m1. rewrite !lookup_insert_ne by congruence. apply lookup_insert_eq. }
  assert (m1 !! p = Some tp1) as Hp1.
  { subst m1. rewrite lookup_insert_ne by congruence. apply lookup_insert_eq. }
  assert (m1 !! v = Some tv1) as Hv1 by apply lookup_insert_eq.
  assert (<[c:=ATen.zero_ tc1]> m1 = m1) as Hid1 by by apply insert_id.
  assert (<[p:=tp1]> m1 = m1) as Hid2 by by apply insert_id.
  assert (<[v:=tv1]> m1 = m1) as Hid3 by by apply insert_id.
  assert (block_shape (ATen.zero_ tc1) tv1 =
            match tail with
            | block_rows :: block_cols :: _ => Some (block_rows, block_cols)
            | _ => None
            end) as Hblock.
  { by apply (block_shape_cleared _ _ batch (Int64.add groups 1)). }
  assert (dense = [] ∨ layout_ (this w) = kSparseCsr ∨ layout_ (this w) = kSparseCsc)
    as Hdense.
  { destruct Hplain as [?|[?|Hlen]]; auto. left.
    rewrite !length_app in Hlen. cbn [length] in Hlen.
    destruct dense; [done | cbn [length] in Hlen; lia]. }
  assert (compressed_groups (layout_ (this w)) rows cols
            (block_shape (ATen.zero_ tc1) tv1) = Some groups ∧
          values_tail (layout_ (this w)) dense
            (block_shape (ATen.zero_ tc1) tv1) = Some tail ∧
          block_edge_nonzero (layout_ (this w))
            (block_shape (ATen.zero_ tc1) tv1)) as (Hg' & Ht' & Hedge').
  { rewrite Hblock. unfold compressed_groups, values_tail, block_edge_nonzero in *.
    destruct (layout_ (this w)); try done;
      (destruct Hdense as [->|[?|?]]; [|discriminate..]);
      destruct (block_shape tc tv) as [[br bc]|]; try done;
      cbn [app] in Ht; by injection Ht as <-. }
  pose proof (resize_and_clear_run sparse_dim batch rows cols dense
    {| tensors := m1;
       this := with_numel (foldr Int64.mul 1 (batch ++ [rows; cols] ++ dense))
                 (with_sizes (batch ++ [rows; cols] ++ dense) (this w)) |}
    (ATen.zero_ tc1) tv1 groups tail (ATen.zero_ tc1) tp1 tp1 tv1 tv1) as Hrun.
  cbn [tensors this has_symbolic_sizes_strides_ crow_indices_ col_indices_
       values_ layout_ with_numel with_sizes] in Hrun.
  fold c p v in Hrun. cbv zeta in Hrun.
  rewrite zero_twice, Hid1, Hid2, Hid3, with_shape_twice in Hrun.
  apply Hrun; try done.
  - apply resize_same_shape; [exact Hsz1 | exact Hnn1 |].
    apply storage_covers_zero. by eapply resize_covers.
  - apply resize_same_shape; [done.. | by eapply resize_covers].
  - apply resize_same_shape; [done.. | by eapply resize_covers].
Qed.

Lemma resize_and_clear_twice_witness :
  resize_and_clear_ 2 [6; 6] (resize_and_clear_ 2 [6; 6] bsr_4x4).2 =
    (inr (), (resize_and_clear_ 2 [6; 6] bsr_4x4).2).
Proof.
  apply (resize_and_clear_twice 2 [6; 6] bsr_4x4 _
           (tensor_on cpu [3] Long [Some 0; Some 1; Some 2])
           (tensor_on cpu [2; 2; 2] Float (replicate 8 (Some 9)))).
  - cbn. rewrite !NoDup_cons, !not_elem_of_cons, NoDup_nil.
    repeat split; try done; by intros ?%elem_of_nil.
  - reflexivity.
  - reflexivity.
  - right. right. reflexivity.
  - reflexivity.
Defined.
